(** * AgnosticBrainDecoder: a shallow embedding of brainwavestonaturallanguage.js

    The development follows the source file top to bottom: the JavaScript
    values the decoder manipulates (numbers, plain objects, arrays), the
    library calls it relies on (mathjs, brain.js, axios), the methods of
    [AgnosticBrainDecoder], and then the properties of those methods.

    Numbers.  A JavaScript number is an IEEE double.  Here a finite double
    is idealised as an exact rational; [NaN] and the two infinities are kept
    because the decoder can produce them ([x + undefined], [x / 0]).
    Rounding, overflow and the sign of zero are outside the model. *)

From Stdlib Require Import List String Ascii Bool Arith ZArith QArith Lia.
From Stdlib Require Import Permutation DecimalString DecimalNat Lqa.
Import ListNotations.
Open Scope string_scope.
Open Scope list_scope.
Open Scope nat_scope.
Set Warnings "-register-all".

(* ================================================================= *)
(** ** JavaScript numbers *)

Module Number.

Inductive number : Type :=
| Fin (q : Q)
| Inf (positive : bool)
| NaN.

Definition nonneg (q : Q) : bool := Qle_bool 0 q.
Definition is_zero (q : Q) : bool := Qeq_bool q 0.

(** [a + b] *)
Definition add (a b : number) : number :=
  match a, b with
  | NaN, _ | _, NaN => NaN
  | Inf s, Inf t => if Bool.eqb s t then Inf s else NaN
  | Inf s, Fin _ | Fin _, Inf s => Inf s
  | Fin x, Fin y => Fin (Qred (x + y))
  end.

(** [a * b] *)
Definition mul (a b : number) : number :=
  match a, b with
  | NaN, _ | _, NaN => NaN
  | Inf s, Inf t => Inf (Bool.eqb s t)
  | Inf s, Fin q | Fin q, Inf s =>
      if is_zero q then NaN else Inf (Bool.eqb s (nonneg q))
  | Fin x, Fin y => Fin (Qred (x * y))
  end.

(** [a / b] *)
Definition div (a b : number) : number :=
  match a, b with
  | NaN, _ | _, NaN => NaN
  | Inf _, Inf _ => NaN
  | Inf s, Fin q => Inf (Bool.eqb s (nonneg q))
  | Fin _, Inf _ => Fin 0
  | Fin x, Fin y =>
      if is_zero y
      then (if is_zero x then NaN else Inf (nonneg x))
      else Fin (Qred (x / y))
  end.

(** [a > b]: false as soon as one side is [NaN]. *)
Definition gt (a b : number) : bool :=
  match a, b with
  | NaN, _ | _, NaN => false
  | Inf true, Inf true => false
  | Inf true, _ => true
  | _, Inf true => false
  | Inf false, _ => false
  | Fin _, Inf false => true
  | Fin x, Fin y => negb (Qle_bool x y)
  end.

Definition is_nan (a : number) : bool :=
  match a with NaN => true | _ => false end.

Definition of_nat (n : nat) : number := Fin (inject_Z (Z.of_nat n)).

End Number.
Export Number.

(* ================================================================= *)
(** ** Exceptions *)

(** The exceptions the decoder can meet, named after the place that throws. *)
Inductive error : Type :=
| MeanOfEmptyArray    (* mathjs.mean: Error "Cannot calculate the mean of an empty array" *)
| ReduceOfEmptyArray  (* Array.prototype.reduce: TypeError "Reduce of empty array with no initial value" *)
| TypeError           (* property read on undefined or null; typed-function finds no signature *)
| DimensionError      (* mathjs: operands of different sizes *)
| LibraryError (who : string). (* raised inside brain.js or axios *)

(** The names these conditions carry in the design document. *)
Definition InvalidInput : error := MeanOfEmptyArray.
Definition EmptyDistribution : error := ReduceOfEmptyArray.

Inductive result (A : Type) : Type :=
| Ok (a : A)
| Err (e : error).
Arguments Ok {A} a.
Arguments Err {A} e.

Definition bind {A B} (r : result A) (k : A -> result B) : result B :=
  match r with
  | Ok a => k a
  | Err e => Err e
  end.

Notation "x <- c ;; k" := (bind c (fun x => k))
  (at level 61, c at next level, right associativity).

(** [array.map(f)] when [f] may throw: the first exception aborts the map. *)
Fixpoint map_m {A B} (f : A -> result B) (l : list A) : result (list B) :=
  match l with
  | [] => Ok []
  | a :: l' => b <- f a ;; bs <- map_m f l' ;; Ok (b :: bs)
  end.

(* ================================================================= *)
(** ** Plain objects *)

(** A plain object is represented by its own enumerable properties, listed
    in the order in which [Object.keys] visits them.  Keys are strings and
    occur once.  JavaScript visits the keys that look like array indices
    first, in ascending order, whatever the order of their creation;
    [assign] below does not reorder, so an object built by [fromEntries] is
    listed in order of creation, and a statement that depends on the place
    of such keys says so. *)
Definition obj (V : Type) : Type := list (string * V).

(** The properties every plain object inherits from [Object.prototype]. *)
Definition object_prototype_keys : list string :=
  [ "constructor"; "__defineGetter__"; "__defineSetter__"; "hasOwnProperty";
    "__lookupGetter__"; "__lookupSetter__"; "isPrototypeOf";
    "propertyIsEnumerable"; "toString"; "valueOf"; "__proto__";
    "toLocaleString" ].

Definition on_prototype (k : string) : bool :=
  existsb (String.eqb k) object_prototype_keys.

(** What a property read [o[k]] finds. *)
Inductive property (V : Type) : Type :=
| Own (v : V)
| Inherited (name : string)   (* a member of [Object.prototype] *)
| Undefined.
Arguments Own {V} v.
Arguments Inherited {V} name.
Arguments Undefined {V}.

Fixpoint get_own {V} (k : string) (o : obj V) : option V :=
  match o with
  | [] => None
  | (k', v) :: o' => if String.eqb k k' then Some v else get_own k o'
  end.

(** [o[k]] *)
Definition get {V} (k : string) (o : obj V) : property V :=
  match get_own k o with
  | Some v => Own v
  | None => if on_prototype k then Inherited k else Undefined
  end.

(** [k in o]: own properties first, then the prototype chain. *)
Definition js_in {V} (k : string) (o : obj V) : bool :=
  match get_own k o with
  | Some _ => true
  | None => on_prototype k
  end.

(** [Object.keys(o)] and [Object.entries(o)] *)
Definition keys {V} (o : obj V) : list string := map fst o.
Definition entries {V} (o : obj V) : list (string * V) := o.

(** [o[k] = v]: an existing property keeps its place, a new one goes last. *)
Fixpoint assign {V} (k : string) (v : V) (o : obj V) : obj V :=
  match o with
  | [] => [(k, v)]
  | (k', v') :: o' =>
      if String.eqb k k' then (k, v) :: o' else (k', v') :: assign k v o'
  end.

(** [Object.fromEntries(es)] *)
Definition fromEntries {V} (es : list (string * V)) : obj V :=
  fold_left (fun o e => assign (fst e) (snd e) o) es [].

(* ================================================================= *)
(** ** Arrays *)

(** [a.slice(start, stop)] and [a.slice(start)] for indices within range. *)
Definition slice {A} (start stop : nat) (a : list A) : list A :=
  firstn (stop - start) (skipn start a).
Definition slice_from {A} (start : nat) (a : list A) : list A :=
  skipn start a.

(** [a.reduce(f)] without an initial value, for a callback that may throw. *)
Fixpoint reduce_from {A} (f : A -> A -> result A) (acc : A) (l : list A)
  : result A :=
  match l with
  | [] => Ok acc
  | b :: l' => acc' <- f acc b ;; reduce_from f acc' l'
  end.

Definition reduce {A} (f : A -> A -> result A) (l : list A) : result A :=
  match l with
  | [] => Err ReduceOfEmptyArray
  | a :: l' => reduce_from f a l'
  end.

(** [a.map((x, i) => f(x, i))] *)
Fixpoint mapi_from {A B} (f : A -> nat -> B) (i : nat) (l : list A) : list B :=
  match l with
  | [] => []
  | a :: l' => f a i :: mapi_from f (S i) l'
  end.
Definition mapi {A B} (f : A -> nat -> B) (l : list A) : list B :=
  mapi_from f 0 l.

(** [[...new Set(y)]]: the distinct elements in order of first occurrence. *)
Definition set_add (seen : list string) (w : string) : list string :=
  if existsb (String.eqb w) seen then seen else seen ++ [w].
Definition spread_set (y : list string) : list string :=
  fold_left set_add y [].

(** [String(i)] for an array index. *)
Definition string_of_index (i : nat) : string :=
  NilEmpty.string_of_uint (Nat.to_uint i).

(* ================================================================= *)
(** ** mathjs *)

Module Mathjs.

(** [mathjs.dotMultiply(x, y)]: the element-wise product. *)
Fixpoint dotMultiply (x y : list number) : result (list number) :=
  match x, y with
  | [], [] => Ok []
  | a :: x', b :: y' => r <- dotMultiply x' y' ;; Ok (mul a b :: r)
  | _, _ => Err DimensionError
  end.

(** [mathjs.mean(a)]: the sum, folded from the left, over the count. *)
Definition mean (a : list number) : result number :=
  match a with
  | [] => Err MeanOfEmptyArray
  | x :: xs => Ok (div (fold_left add xs x) (of_nat (List.length a)))
  end.

End Mathjs.

(* ================================================================= *)
(** ** Values received from the dictionary service *)

(** The payload of an HTTP response, and what reading a missing member of
    it gives. *)
Inductive value : Type :=
| VUndefined
| VNull
| VBool (b : bool)
| VNumber (n : number)
| VString (s : string)
| VArray (items : list value)
| VObject (members : list (string * value)).

(** [v[0]] *)
Definition get_index0 (v : value) : result value :=
  match v with
  | VUndefined | VNull => Err TypeError
  | VArray [] => Ok VUndefined
  | VArray (x :: _) => Ok x
  | VString EmptyString => Ok VUndefined
  | VString (String c _) => Ok (VString (String c EmptyString))
  | VObject members =>
      match get_own "0" members with
      | Some x => Ok x
      | None => Ok VUndefined
      end
  | VBool _ | VNumber _ => Ok VUndefined
  end.

(** [v.name] for the member names the decoder reads ([meanings],
    [definitions], [definition]); no built-in prototype defines them, so a
    value without such a member of its own answers [undefined]. *)
Definition get_field (name : string) (v : value) : result value :=
  match v with
  | VUndefined | VNull => Err TypeError
  | VObject members =>
      match get_own name members with
      | Some x => Ok x
      | None => Ok VUndefined
      end
  | _ => Ok VUndefined
  end.

(** [try { body } catch (error) { handler }] *)
Definition try_catch {A} (body : result A) (handler : error -> result A)
  : result A :=
  match body with
  | Ok a => Ok a
  | Err e => handler e
  end.

(* ================================================================= *)
(** ** Collaborators *)

(** The libraries the decoder calls and whose code is not part of the
    repository.  [network] is a [brain.NeuralNetwork] with its weights;
    [axios_get] answers with the payload of the response or throws;
    [inherited_to_string] is the string a member of [Object.prototype]
    converts to. *)
Class Collaborators : Type := {
  network : Type;
  brain_new : network;
  brain_run : network -> list number -> result (obj number);
  brain_train : network -> list (list number * obj number)
                -> network * result unit;
  mathjs_dot : list number -> list number -> result number;
  mathjs_norm : list number -> result number;
  axios_get : string -> result value;
  inherited_to_string : string -> string
}.

(* ================================================================= *)
(** ** The decoder *)

Section Decoder.

Context `{Collaborators}.

Definition FrequencyBands : Type := obj (number * number).
Definition RawData : Type := list (list number).

Record AgnosticBrainDecoder : Type := {
  frequencyBands : FrequencyBands;
  samplingRate : number;
  phoneticClassifier : network;
  semanticClassifier : network;
  wordMapping : obj nat;
  wordEmbeddings : obj (list number)
}.

Definition constructor (frequencyBands : FrequencyBands)
    (samplingRate : number) : AgnosticBrainDecoder :=
  {| frequencyBands := frequencyBands;
     samplingRate := samplingRate;
     phoneticClassifier := brain_new;
     semanticClassifier := brain_new;
     wordMapping := [];
     wordEmbeddings := [] |}.

(** *** extractWeightedBandPower *)

(** The body of the [for ... of Object.entries(this.frequencyBands)] loop,
    from the entries still to visit and the [features] pushed so far. *)
Fixpoint band_loop (bands : list (string * (number * number)))
    (data : list number) (features : list number) : result (list number) :=
  match bands with
  | [] => Ok features
  | (bandName, (lowFreq, highFreq)) :: rest =>
      squares <- Mathjs.dotMultiply data data ;;
      bandPower <- Mathjs.mean squares ;;
      let centerFreq := div (add lowFreq highFreq) (of_nat 2) in
      let weightedPower := mul bandPower centerFreq in
      band_loop rest data (features ++ [weightedPower])
  end.

Definition extractWeightedBandPower (this : AgnosticBrainDecoder)
    (data : list number) : result (list number) :=
  band_loop (entries (frequencyBands this)) data [].

(** *** preprocessData *)

Fixpoint channel_loop (this : AgnosticBrainDecoder) (rawData : RawData)
    (processedFeatures : list number) : result (list number) :=
  match rawData with
  | [] => Ok processedFeatures
  | channelData :: rest =>
      channelFeatures <- extractWeightedBandPower this channelData ;;
      channel_loop this rest (processedFeatures ++ channelFeatures)
  end.

Definition preprocessData (this : AgnosticBrainDecoder) (rawData : RawData)
  : result (list number) :=
  channel_loop this rawData [].

(** *** extractPhoneticFeatures, extractSemanticFeatures *)

(** [Math.floor(data.length / 2)] *)
Definition half_length {A} (data : list A) : nat := List.length data / 2.

Definition extractPhoneticFeatures (this : AgnosticBrainDecoder)
    (data : RawData) : result (list number) :=
  preprocessData this (slice 0 (half_length data) data).

Definition extractSemanticFeatures (this : AgnosticBrainDecoder)
    (data : RawData) : result (list number) :=
  preprocessData this (slice_from (half_length data) data).

(** *** train *)

(** [uniqueWords] and [this.wordMapping] as [train] computes them. *)
Definition uniqueWords (y : list string) : list string := spread_set y.

Definition build_wordMapping (y : list string) : obj nat :=
  fromEntries (mapi (fun word i => (word, i)) (uniqueWords y)).

(** The property key a value of [yEncoded] turns into. *)
Definition encoded_key (e : option (property nat)) : string :=
  match e with
  | Some (Own i) => string_of_index i
  | Some (Inherited name) => inherited_to_string name
  | Some Undefined | None => "undefined"
  end.

(** [data.map((data, i) => ({input: data, output: {[yEncoded[i]]: 1}}))] *)
Definition training_set (data : list (list number))
    (yEncoded : list (property nat)) : list (list number * obj number) :=
  mapi (fun input i =>
          (input, [(encoded_key (nth_error yEncoded i), of_nat 1)])) data.

(** [train] returns the decoder as the call leaves it, together with the
    outcome of the call: an exception leaves the assignments made before
    it in place. *)
Definition train (this : AgnosticBrainDecoder)
    (rawDataSamples : list RawData) (y : list string)
  : AgnosticBrainDecoder * result unit :=
  match map_m (extractPhoneticFeatures this) rawDataSamples with
  | Err e => (this, Err e)
  | Ok phoneticData =>
  match map_m (extractSemanticFeatures this) rawDataSamples with
  | Err e => (this, Err e)
  | Ok semanticData =>
      let mapping := build_wordMapping y in
      let yEncoded := map (fun word => get word mapping) y in
      let '(phonetic, r1) :=
        brain_train (phoneticClassifier this)
                    (training_set phoneticData yEncoded) in
      let this1 :=
        {| frequencyBands := frequencyBands this;
           samplingRate := samplingRate this;
           phoneticClassifier := phonetic;
           semanticClassifier := semanticClassifier this;
           wordMapping := mapping;
           wordEmbeddings := wordEmbeddings this |} in
      match r1 with
      | Err e => (this1, Err e)
      | Ok _ =>
          let '(semantic, r2) :=
            brain_train (semanticClassifier this1)
                        (training_set semanticData yEncoded) in
          ({| frequencyBands := frequencyBands this1;
              samplingRate := samplingRate this1;
              phoneticClassifier := phoneticClassifier this1;
              semanticClassifier := semantic;
              wordMapping := wordMapping this1;
              wordEmbeddings := wordEmbeddings this1 |}, r2)
      end
  end
  end.

(** *** predict *)

(** [(phoneticPred[key] + semanticPred[key]) / 2].  When one of the two
    reads is not a number ([undefined], or a function inherited from
    [Object.prototype]) the sum is [NaN] or a string that is not numeric,
    and the quotient is [NaN]. *)
Definition average (p s : property number) : number :=
  match p, s with
  | Own x, Own y => div (add x y) (of_nat 2)
  | _, _ => NaN
  end.

Definition combine (phoneticPred semanticPred : obj number) : obj number :=
  fromEntries
    (map (fun key => (key, average (get key phoneticPred)
                                   (get key semanticPred)))
         (keys phoneticPred)).

(** A score read for a comparison: anything but a number compares as
    [NaN]. *)
Definition score (p : property number) : number :=
  match p with
  | Own x => x
  | _ => NaN
  end.

(** [Object.keys(d).reduce((a, b) => d[a] > d[b] ? a : b)] *)
Definition argmax (d : obj number) : result string :=
  reduce (fun a b => Ok (if gt (score (get a d)) (score (get b d))
                         then a else b))
         (keys d).

Definition inverseMapping (mapping : obj nat) : obj string :=
  fromEntries (map (fun '(k, v) => (string_of_index v, k)) (entries mapping)).

Definition predict (this : AgnosticBrainDecoder) (rawData : RawData)
  : result (property string) :=
  phoneticFeatures <- extractPhoneticFeatures this rawData ;;
  semanticFeatures <- extractSemanticFeatures this rawData ;;
  phoneticPred <- brain_run (phoneticClassifier this) phoneticFeatures ;;
  semanticPred <- brain_run (semanticClassifier this) semanticFeatures ;;
  let combinedPred := combine phoneticPred semanticPred in
  predictedIndex <- argmax combinedPred ;;
  Ok (get predictedIndex (inverseMapping (wordMapping this))).

(** *** getNormalizedDefinition *)

Definition dictionary_url (word : string) : string :=
  ("https://api.dictionaryapi.dev/api/v2/entries/en/" ++ word)%string.

Definition getNormalizedDefinition (word : string) : result value :=
  try_catch
    (data <- axios_get (dictionary_url word) ;;
     entry <- get_index0 data ;;
     meanings <- get_field "meanings" entry ;;
     meaning <- get_index0 meanings ;;
     definitions <- get_field "definitions" meaning ;;
     first <- get_index0 definitions ;;
     get_field "definition" first)
    (fun _ => Ok (VString "Definition not found")).

(** *** cosineSimilarity, findUniversalConcept *)

(** [mathjs.dot] accepts arrays only: any other first argument has no
    matching signature. *)
Definition cosineSimilarity (a : property (list number)) (b : list number)
  : result number :=
  match a with
  | Own v =>
      d <- mathjs_dot v b ;;
      na <- mathjs_norm v ;;
      nb <- mathjs_norm b ;;
      Ok (div d (mul na nb))
  | Inherited _ | Undefined => Err TypeError
  end.

(** The decimal literal [n/d]. *)
Definition decimal (n d : Z) : number :=
  Fin (Qred (inject_Z n / inject_Z d)).

Definition universalConcepts : obj (list number) :=
  [ ("entity", [decimal 1 10; decimal 2 10; decimal 3 10]);
    ("action", [decimal 4 10; decimal 5 10; decimal 6 10]);
    ("state",  [decimal 7 10; decimal 8 10; decimal 9 10]) ].

Definition findUniversalConcept (this : AgnosticBrainDecoder)
    (word : string) : result string :=
  if negb (js_in word (wordEmbeddings this))
  then Ok "Word not in vocabulary"
  else
    let wordVector := get word (wordEmbeddings this) in
    closestConcept <-
      reduce (fun a b =>
                sa <- cosineSimilarity wordVector (snd a) ;;
                sb <- cosineSimilarity wordVector (snd b) ;;
                Ok (if gt sa sb then a else b))
             (entries universalConcepts) ;;
    Ok (fst closestConcept).

(** *** processAndPredict *)

Record PredictionResult : Type := {
  predictedWord : property string;
  definition : value;
  universalConcept : string
}.

(** The string a predicted word becomes inside a template literal or as
    a property key. *)
Definition to_string (word : property string) : string :=
  match word with
  | Own s => s
  | Inherited name => inherited_to_string name
  | Undefined => "undefined"
  end.

Definition processAndPredict (this : AgnosticBrainDecoder)
    (rawData : RawData) : result PredictionResult :=
  word <- predict this rawData ;;
  definition <- getNormalizedDefinition (to_string word) ;;
  universalConcept <- findUniversalConcept this (to_string word) ;;
  Ok {| predictedWord := word;
        definition := definition;
        universalConcept := universalConcept |}.

End Decoder.

(* ================================================================= *)
(** ** A laboratory set-up *)

(** Collaborators for running the decoder on concrete inputs: a network is
    the constant classifier that always answers with the distribution it
    holds, training makes it hold every output key of the training set
    with score 1, and the dictionary service answers every request with
    [answer]. *)
Definition laboratory (answer : result value) : Collaborators :=
  {| network := obj number;
     brain_new := [];
     brain_run := fun net _ => Ok net;
     brain_train := fun _ data => (fromEntries (flat_map snd data), Ok tt);
     mathjs_dot := fun _ _ => Ok (of_nat 1);
     mathjs_norm := fun _ => Ok (of_nat 1);
     axios_get := fun _ => answer;
     inherited_to_string :=
       fun name => ("function " ++ name ++ "() { [native code] }")%string |}.

Definition offline : Collaborators :=
  laboratory (Err (LibraryError "axios")).

(** [{delta: [0.5, 4]}] *)
Definition delta_only : obj (number * number) :=
  [("delta", (decimal 5 10, of_nat 4))].

(** A freshly constructed decoder with the single band delta. *)
Definition delta_decoder : @AgnosticBrainDecoder offline :=
  constructor delta_only (of_nat 1000).

(* ================================================================= *)
(** ** Band power *)

Section BandPower.

Context `{Collaborators}.

Definition square (x : number) : number := mul x x.

(** The weight a band contributes: its centre frequency. *)
Definition centerFreq (band : string * (number * number)) : number :=
  div (add (fst (snd band)) (snd (snd band))) (of_nat 2).

Lemma dotMultiply_self (data : list number) :
  Mathjs.dotMultiply data data = Ok (map square data).
Proof.
  induction data as [|x data IH]; simpl.
  - reflexivity.
  - rewrite IH. reflexivity.
Qed.

Lemma mean_nonempty (data : list number) :
  data <> [] -> exists power, Mathjs.mean (map square data) = Ok power.
Proof.
  destruct data as [|x data]; [congruence|].
  intros _. simpl. eexists. reflexivity.
Qed.

Lemma band_loop_nonempty bands data power features :
  Mathjs.mean (map square data) = Ok power ->
  band_loop bands data features
  = Ok (features ++ map (fun band => mul power (centerFreq band)) bands).
Proof.
  intros Hmean. revert features.
  induction bands as [|[name [lo hi]] bands IH]; intros features; simpl.
  - now rewrite app_nil_r.
  - rewrite dotMultiply_self. simpl. rewrite Hmean. simpl.
    rewrite IH, <- app_assoc. reflexivity.
Qed.

Lemma band_loop_empty_data band bands features :
  band_loop (band :: bands) [] features = Err MeanOfEmptyArray.
Proof. destruct band as [name [lo hi]]. reflexivity. Qed.

Lemma extract_nonempty this data :
  data <> [] ->
  exists features,
    extractWeightedBandPower this data = Ok features /\
    List.length features = List.length (frequencyBands this).
Proof.
  intros Hne. destruct (mean_nonempty data Hne) as [power Hmean].
  unfold extractWeightedBandPower.
  rewrite (band_loop_nonempty _ _ power) by exact Hmean.
  eexists. split; [reflexivity|]. simpl. now rewrite length_map.
Qed.

Lemma channel_loop_map_m this rawData processed :
  channel_loop this rawData processed
  = (perChannel <- map_m (extractWeightedBandPower this) rawData ;;
     Ok (processed ++ List.concat perChannel)).
Proof.
  revert processed.
  induction rawData as [|channel rest IH]; intros processed; simpl.
  - now rewrite app_nil_r.
  - destruct (extractWeightedBandPower this channel) as [f|e]; simpl;
      [|reflexivity].
    rewrite IH.
    destruct (map_m (extractWeightedBandPower this) rest) as [fs|e]; simpl;
      [|reflexivity].
    now rewrite app_assoc.
Qed.

Lemma map_m_extract_nonempty this rawData :
  (forall channel, In channel rawData -> channel <> []) ->
  exists perChannel,
    map_m (extractWeightedBandPower this) rawData = Ok perChannel /\
    List.length (List.concat perChannel)
    = List.length rawData * List.length (frequencyBands this).
Proof.
  induction rawData as [|channel rest IH]; intros Hne; simpl.
  - exists []. split; reflexivity.
  - destruct (extract_nonempty this channel) as (f & Hf & Hlen).
    { apply Hne. now left. }
    destruct IH as (fs & Hfs & Hlens).
    { intros c Hc. apply Hne. now right. }
    rewrite Hf, Hfs. simpl. exists (f :: fs). split; [reflexivity|].
    simpl. rewrite length_app, Hlen, Hlens. reflexivity.
Qed.

Lemma preprocessData_nonempty this rawData :
  (forall channel, In channel rawData -> channel <> []) ->
  exists perChannel,
    map_m (extractWeightedBandPower this) rawData = Ok perChannel /\
    preprocessData this rawData = Ok (List.concat perChannel) /\
    List.length (List.concat perChannel)
    = List.length rawData * List.length (frequencyBands this).
Proof.
  intros Hne.
  destruct (map_m_extract_nonempty this rawData Hne) as (fs & Hfs & Hlen).
  exists fs. repeat split; try assumption.
  unfold preprocessData. rewrite channel_loop_map_m, Hfs. reflexivity.
Qed.

End BandPower.

(** C2. For a channel with at least one sample, the extraction answers one
    value per band, in the order of the band table: the mean of the squared
    samples times the centre frequency [(low + high) / 2] of the band.  With
    the single band delta = [0.5, 4], the signal [1, 1, 1, 1] gives
    [2.25]. *)
Theorem extractWeightedBandPower_values :
  (forall (C : Collaborators) (this : AgnosticBrainDecoder)
          (data : list number),
      data <> [] ->
      exists power,
        Mathjs.mean (map square data) = Ok power /\
        extractWeightedBandPower this data
        = Ok (map (fun band => mul power (centerFreq band))
                  (entries (frequencyBands this)))) /\
  @extractWeightedBandPower offline
    (constructor delta_only (of_nat 1000))
    [of_nat 1; of_nat 1; of_nat 1; of_nat 1]
  = Ok [decimal 225 100].
Proof.
  split.
  - intros C this data Hne.
    destruct (mean_nonempty data Hne) as [power Hmean].
    exists power. split; [exact Hmean|].
    unfold extractWeightedBandPower.
    now rewrite (band_loop_nonempty _ _ power) by exact Hmean.
  - vm_compute. reflexivity.
Qed.

Lemma extractWeightedBandPower_values_witness :
  exists power,
    Mathjs.mean (map square [of_nat 1; of_nat 3]) = Ok power /\
    @extractWeightedBandPower offline
      (constructor delta_only (of_nat 1000)) [of_nat 1; of_nat 3]
    = Ok (map (fun band => mul power (centerFreq band)) delta_only).
Proof.
  apply (proj1 extractWeightedBandPower_values offline
               (constructor delta_only (of_nat 1000))
               [of_nat 1; of_nat 3]).
  discriminate.
Defined.

(** C6, as stated, fails: with an empty band table the loop body never
    runs, and the extraction of an empty channel answers the empty list
    instead of failing. *)
Lemma extractWeightedBandPower_empty_counterexample :
  @extractWeightedBandPower offline (constructor [] (of_nat 1000)) []
  = Ok []
  /\ @extractWeightedBandPower offline (constructor [] (of_nat 1000)) []
     <> Err InvalidInput.
Proof. split; [reflexivity | discriminate]. Qed.

(** C6, amended. On an empty channel the extraction fails with the
    InvalidInput condition whenever the band table has at least one band,
    answers the empty list when the table has none, and in no case answers
    a list that holds [NaN]. *)
Theorem extractWeightedBandPower_empty_channel :
  forall (C : Collaborators) (this : AgnosticBrainDecoder),
    (frequencyBands this <> [] ->
     extractWeightedBandPower this [] = Err InvalidInput) /\
    (frequencyBands this = [] ->
     extractWeightedBandPower this [] = Ok []) /\
    (forall features,
        extractWeightedBandPower this [] = Ok features ->
        ~ In NaN features).
Proof.
  intros C this. unfold extractWeightedBandPower, entries.
  destruct (frequencyBands this) as [|band bands].
  - repeat split; try congruence.
    simpl. intros features Hf. injection Hf as <-. intros [].
  - rewrite band_loop_empty_data. repeat split; congruence.
Qed.

Lemma extractWeightedBandPower_empty_channel_witness :
  @extractWeightedBandPower offline
    (constructor delta_only (of_nat 1000)) []
  = Err InvalidInput.
Proof.
  apply (proj1 (extractWeightedBandPower_empty_channel offline
                  (constructor delta_only (of_nat 1000)))).
  discriminate.
Defined.

(* ================================================================= *)
(** ** The two pathways *)

(** The pathways as the design document words them: every channel is cut
    at the middle of its own samples. *)
Definition first_half {A} (channel : list A) : list A :=
  slice 0 (half_length channel) channel.
Definition second_half {A} (channel : list A) : list A :=
  slice_from (half_length channel) channel.

Definition featurizePhonetic_by_samples `{Collaborators}
    (this : AgnosticBrainDecoder) (data : RawData) : result (list number) :=
  preprocessData this (map first_half data).
Definition featurizeSemantic_by_samples `{Collaborators}
    (this : AgnosticBrainDecoder) (data : RawData) : result (list number) :=
  preprocessData this (map second_half data).

(** Two channels of two samples each. *)
Definition two_by_two : RawData :=
  [[of_nat 1; of_nat 2]; [of_nat 3; of_nat 4]].

(** C1, as stated, fails: [data.slice] cuts the list of channels, not the
    samples of a channel.  With two channels and one band each pathway
    answers one feature, not two, and the phonetic feature is computed from
    both samples of the first channel. *)
Lemma pathways_counterexample :
  let this := @constructor offline delta_only (of_nat 1000) in
  extractPhoneticFeatures this two_by_two = Ok [decimal 45 8] /\
  extractSemanticFeatures this two_by_two = Ok [decimal 225 8] /\
  List.length [decimal 45 8] <> List.length two_by_two * List.length delta_only /\
  featurizePhonetic_by_samples this two_by_two
  = Ok [decimal 9 4; decimal 81 4] /\
  extractPhoneticFeatures this two_by_two
  <> featurizePhonetic_by_samples this two_by_two.
Proof.
  cbv zeta. split; [vm_compute; reflexivity|].
  split; [vm_compute; reflexivity|].
  split; [simpl; lia|].
  split; [vm_compute; reflexivity|].
  vm_compute. discriminate.
Qed.

Lemma slice_0 {A} (n : nat) (a : list A) : slice 0 n a = firstn n a.
Proof. unfold slice. simpl. now rewrite Nat.sub_0_r. Qed.

Lemma in_firstn {A} (n : nat) (a : list A) (x : A) :
  In x (firstn n a) -> In x a.
Proof.
  intros Hx. rewrite <- (firstn_skipn n a). apply in_or_app. now left.
Qed.

Lemma in_skipn {A} (n : nat) (a : list A) (x : A) :
  In x (skipn n a) -> In x a.
Proof.
  intros Hx. rewrite <- (firstn_skipn n a). apply in_or_app. now right.
Qed.

(** C1, amended. The phonetic pathway is computed from the first
    [floor(C / 2)] channels of the sample, each taken whole, and the
    semantic pathway from the remaining channels (one more when [C] is
    odd).  When no channel is empty, with [C] channels and [B] bands the
    phonetic vector has [floor(C / 2) * B] features and the semantic vector
    [(C - floor(C / 2)) * B]. *)
Theorem pathways_split_channels :
  forall (C : Collaborators) (this : AgnosticBrainDecoder) (data : RawData),
    (forall channel, In channel data -> channel <> []) ->
    exists phonetic semantic,
      map_m (extractWeightedBandPower this)
            (firstn (List.length data / 2) data) = Ok phonetic /\
      map_m (extractWeightedBandPower this)
            (skipn (List.length data / 2) data) = Ok semantic /\
      extractPhoneticFeatures this data = Ok (List.concat phonetic) /\
      extractSemanticFeatures this data = Ok (List.concat semantic) /\
      List.length (List.concat phonetic)
      = (List.length data / 2) * List.length (frequencyBands this) /\
      List.length (List.concat semantic)
      = (List.length data - List.length data / 2)
        * List.length (frequencyBands this).
Proof.
  intros C this data Hne.
  set (n := List.length data / 2).
  assert (Hn : n <= List.length data).
  { subst n. apply Nat.Div0.div_le_upper_bound. lia. }
  destruct (preprocessData_nonempty this (firstn n data))
    as (p & Hp & Hpre & Hlen).
  { intros c Hc. apply Hne. eapply in_firstn; eauto. }
  destruct (preprocessData_nonempty this (skipn n data))
    as (s & Hs & Hsem & Hlens).
  { intros c Hc. apply Hne. eapply in_skipn; eauto. }
  exists p, s.
  unfold extractPhoneticFeatures, extractSemanticFeatures, half_length,
    slice_from.
  rewrite slice_0. fold n.
  rewrite length_firstn in Hlen. rewrite length_skipn in Hlens.
  rewrite Nat.min_l in Hlen by exact Hn.
  repeat split; assumption.
Qed.

Lemma pathways_split_channels_witness :
  exists phonetic semantic,
    map_m (extractWeightedBandPower delta_decoder)
          (firstn (List.length two_by_two / 2) two_by_two) = Ok phonetic /\
    map_m (extractWeightedBandPower delta_decoder)
          (skipn (List.length two_by_two / 2) two_by_two) = Ok semantic /\
    extractPhoneticFeatures delta_decoder two_by_two
    = Ok (List.concat phonetic) /\
    extractSemanticFeatures delta_decoder two_by_two
    = Ok (List.concat semantic) /\
    List.length (List.concat phonetic)
    = (List.length two_by_two / 2) * List.length delta_only /\
    List.length (List.concat semantic)
    = (List.length two_by_two - List.length two_by_two / 2)
      * List.length delta_only.
Proof.
  apply (pathways_split_channels offline delta_decoder two_by_two).
  intros channel [<- | [<- | []]]; discriminate.
Defined.

(* ================================================================= *)
(** ** Plain objects: reads after writes *)

Section Objects.

Context {V : Type}.

Lemma get_own_assign (k k' : string) (v : V) (o : obj V) :
  get_own k (assign k' v o)
  = if String.eqb k k' then Some v else get_own k o.
Proof.
  induction o as [|[k0 v0] o IH]; simpl.
  - reflexivity.
  - destruct (String.eqb k' k0) eqn:E0; simpl.
    + apply String.eqb_eq in E0. subst k0.
      destruct (String.eqb k k'); reflexivity.
    + rewrite IH. destruct (String.eqb k k0) eqn:E1; [|reflexivity].
      apply String.eqb_eq in E1. subst k0.
      destruct (String.eqb k k') eqn:E2; [|reflexivity].
      apply String.eqb_eq in E2. subst k'.
      rewrite String.eqb_refl in E0. discriminate.
Qed.

Lemma get_own_app (k : string) (a b : obj V) :
  get_own k (a ++ b)
  = match get_own k a with Some v => Some v | None => get_own k b end.
Proof.
  induction a as [|[k0 v0] a IH]; simpl; [reflexivity|].
  destruct (String.eqb k k0); [reflexivity | exact IH].
Qed.

(** After a run of assignments a key holds what was assigned to it last. *)
Lemma get_own_assignments (k : string) (es : list (string * V)) (o : obj V) :
  get_own k (fold_left (fun o e => assign (fst e) (snd e) o) es o)
  = match get_own k (rev es) with Some v => Some v | None => get_own k o end.
Proof.
  revert o. induction es as [|[k0 v0] es IH]; intros o; simpl.
  - reflexivity.
  - rewrite IH, get_own_app, get_own_assign. simpl.
    destruct (get_own k (rev es)); [reflexivity|].
    destruct (String.eqb k k0); reflexivity.
Qed.

Lemma get_own_fromEntries (k : string) (es : list (string * V)) :
  get_own k (fromEntries es) = get_own k (rev es).
Proof.
  unfold fromEntries. rewrite get_own_assignments. simpl.
  destruct (get_own k (rev es)); reflexivity.
Qed.

Lemma get_own_In (k : string) (o : obj V) :
  In k (keys o) <-> exists v, get_own k o = Some v.
Proof.
  unfold keys. induction o as [|[k0 v0] o IH]; simpl.
  - split; [intros [] | intros [v Hv]; discriminate].
  - destruct (String.eqb k k0) eqn:E.
    + apply String.eqb_eq in E. subst k0. split; eauto.
    + apply String.eqb_neq in E. rewrite IH. split.
      * intros [Hk | Hv]; [congruence | exact Hv].
      * intros Hv. now right.
Qed.

Lemma get_own_None (k : string) (o : obj V) :
  ~ In k (keys o) <-> get_own k o = None.
Proof.
  rewrite get_own_In. destruct (get_own k o) as [v|]; split; intros Hk.
  - exfalso. apply Hk. now exists v.
  - discriminate.
  - reflexivity.
  - intros [v Hv]. discriminate.
Qed.

(** With keys that occur once, a key reads the value listed with it. *)
Lemma get_own_NoDup (k : string) (v : V) (o : obj V) :
  NoDup (keys o) -> In (k, v) o -> get_own k o = Some v.
Proof.
  unfold keys. induction o as [|[k0 v0] o IH]; simpl; intros Hnd Hin.
  - destruct Hin.
  - inversion Hnd as [|? ? Hnotin Hnd']; subst.
    destruct Hin as [Heq | Hin].
    + injection Heq as -> ->. now rewrite String.eqb_refl.
    + destruct (String.eqb k k0) eqn:E; [|now apply IH].
      apply String.eqb_eq in E. subst k0. exfalso. apply Hnotin.
      change k with (fst (k, v)). now apply in_map.
Qed.

Lemma keys_fromEntries (k : string) (es : list (string * V)) :
  In k (keys (fromEntries es)) <-> In k (map fst es).
Proof.
  rewrite get_own_In, get_own_fromEntries, <- get_own_In.
  unfold keys. rewrite map_rev, <- in_rev. reflexivity.
Qed.

Lemma assign_fresh (k : string) (v : V) (o : obj V) :
  ~ In k (keys o) -> assign k v o = o ++ [(k, v)].
Proof.
  unfold keys. induction o as [|[k0 v0] o IH]; simpl; intros Hk.
  - reflexivity.
  - destruct (String.eqb k k0) eqn:E.
    + apply String.eqb_eq in E. subst k0. exfalso. apply Hk. now left.
    + rewrite IH; [reflexivity|]. intros Hin. apply Hk. now right.
Qed.

Lemma assignments_fresh (es : list (string * V)) (o : obj V) :
  NoDup (keys o ++ map fst es) ->
  fold_left (fun o e => assign (fst e) (snd e) o) es o = o ++ es.
Proof.
  revert o. induction es as [|[k v] es IH]; intros o Hnd; simpl.
  - now rewrite app_nil_r.
  - simpl in Hnd. rewrite assign_fresh.
    + rewrite IH.
      * now rewrite <- app_assoc.
      * unfold keys in *. rewrite map_app. simpl. rewrite <- app_assoc.
        exact Hnd.
    + apply NoDup_remove_2 in Hnd. intros Hin. apply Hnd.
      apply in_or_app. now left.
Qed.

(** [Object.fromEntries] of entries whose keys occur once lists them as
    they came. *)
Lemma fromEntries_NoDup (es : list (string * V)) :
  NoDup (map fst es) -> fromEntries es = es.
Proof.
  intros Hnd. unfold fromEntries. now rewrite assignments_fresh.
Qed.

End Objects.

(* ================================================================= *)
(** ** Fusion of the two pathways *)

Lemma get_own_combine (p s : obj number) (k : string) :
  get_own k (combine p s)
  = if existsb (String.eqb k) (keys p)
    then Some (average (get k p) (get k s))
    else None.
Proof.
  unfold combine. rewrite get_own_fromEntries, <- map_rev.
  assert (Hrev : existsb (String.eqb k) (keys p)
                 = existsb (String.eqb k) (rev (keys p))).
  { destruct (existsb (String.eqb k) (keys p)) eqn:E; symmetry.
    - apply existsb_exists in E as (x & Hx & Hk).
      apply existsb_exists. exists x. split; [now apply in_rev in Hx|exact Hk].
    - destruct (existsb (String.eqb k) (rev (keys p))) eqn:E'; [|reflexivity].
      apply existsb_exists in E' as (x & Hx & Hk).
      apply in_rev in Hx.
      assert (existsb (String.eqb k) (keys p) = true)
        by (apply existsb_exists; eauto).
      congruence. }
  rewrite Hrev. clear Hrev.
  induction (rev (keys p)) as [|k0 ks IH]; simpl; [reflexivity|].
  destruct (String.eqb k k0) eqn:E; simpl; [|exact IH].
  apply String.eqb_eq in E. now subst k0.
Qed.

Lemma keys_combine (p s : obj number) (k : string) :
  In k (keys (combine p s)) <-> In k (keys p).
Proof.
  unfold combine. rewrite keys_fromEntries, map_map. simpl.
  now rewrite map_id.
Qed.

Lemma existsb_eqb_In (k : string) (ks : list string) :
  In k ks -> existsb (String.eqb k) ks = true.
Proof.
  intros Hk. apply existsb_exists. exists k. split; [exact Hk|].
  apply String.eqb_refl.
Qed.

(** A phonetic distribution and a semantic one that lacks the key ["1"]. *)
Definition phonetic_two : obj number :=
  [("0", decimal 1 2); ("1", decimal 1 2)].
Definition semantic_one : obj number :=
  [("0", decimal 1 2)].

(** C3, as stated, fails: the fused distribution is built from the keys of
    the phonetic distribution alone, so a key that the semantic distribution
    lacks stays in it, outside the intersection of the two key sets. *)
Lemma fusion_intersection_counterexample :
  In "1" (keys (combine phonetic_two semantic_one)) /\
  ~ In "1" (keys semantic_one) /\
  combine phonetic_two semantic_one = [("0", decimal 1 2); ("1", NaN)].
Proof.
  split; [|split].
  - vm_compute. right. now left.
  - intros [Heq | []]. discriminate.
  - vm_compute. reflexivity.
Qed.

(** C3, amended. The fused distribution gives every key that both
    distributions hold the arithmetic mean of its two scores, and its keys
    are exactly the keys of the phonetic distribution: a key that only the
    semantic distribution holds does not appear in it. *)
Theorem fusion_mean_over_phonetic_keys :
  forall (p s : obj number) (k : string),
    (forall x y,
        get_own k p = Some x -> get_own k s = Some y ->
        get_own k (combine p s) = Some (div (add x y) (of_nat 2))) /\
    (In k (keys (combine p s)) <-> In k (keys p)) /\
    (In k (keys s) -> ~ In k (keys p) -> ~ In k (keys (combine p s))).
Proof.
  intros p s k. split; [|split].
  - intros x y Hp Hs. rewrite get_own_combine.
    rewrite existsb_eqb_In by (apply get_own_In; eauto).
    unfold get. now rewrite Hp, Hs.
  - apply keys_combine.
  - intros _ Hp Hc. apply Hp. now apply keys_combine in Hc.
Qed.

Lemma fusion_mean_over_phonetic_keys_witness :
  get_own "0" (combine phonetic_two semantic_one)
  = Some (div (add (decimal 1 2) (decimal 1 2)) (of_nat 2)).
Proof.
  apply (proj1 (fusion_mean_over_phonetic_keys phonetic_two semantic_one "0")
               (decimal 1 2) (decimal 1 2)); reflexivity.
Defined.

(** C10. The keys of the fused distribution are exactly the keys of the
    phonetic distribution, in the same order when they occur once.  A key
    that only the semantic distribution holds is absent from the fusion,
    and the fusion does not depend on it: two semantic distributions that
    read alike at the phonetic keys fuse alike, so the prediction is the
    same.  A phonetic key that the semantic distribution lacks is kept,
    with the score [NaN]. *)
Theorem fusion_keys_are_phonetic_keys :
  forall (p s : obj number),
    (forall k, In k (keys (combine p s)) <-> In k (keys p)) /\
    (NoDup (keys p) -> keys (combine p s) = keys p) /\
    (forall k, In k (keys s) -> ~ In k (keys p) ->
               ~ In k (keys (combine p s))) /\
    (forall s', (forall k, In k (keys p) -> get k s = get k s') ->
                combine p s = combine p s' /\
                argmax (combine p s) = argmax (combine p s')) /\
    (forall k, In k (keys p) -> ~ In k (keys s) ->
               get_own k (combine p s) = Some NaN).
Proof.
  intros p s. split; [|split; [|split; [|split]]].
  - intros k. apply keys_combine.
  - intros Hnd. unfold combine. rewrite fromEntries_NoDup.
    + unfold keys. rewrite map_map. simpl. apply map_id.
    + rewrite map_map. simpl. now rewrite map_id.
  - intros k _ Hp Hc. apply Hp. now apply keys_combine in Hc.
  - intros s' Hagree.
    assert (Hsame : combine p s = combine p s').
    { unfold combine. f_equal. apply map_ext_in. intros k Hk.
      now rewrite (Hagree k Hk). }
    split; [exact Hsame | now rewrite Hsame].
  - intros k Hp Hs. rewrite get_own_combine, existsb_eqb_In by exact Hp.
    apply get_own_None in Hs. unfold get at 2. rewrite Hs.
    unfold average. destruct (get k p); destruct (on_prototype k); reflexivity.
Qed.

Lemma fusion_keys_are_phonetic_keys_witness :
  keys (combine phonetic_two semantic_one) = keys phonetic_two /\
  get_own "1" (combine phonetic_two semantic_one) = Some NaN.
Proof.
  destruct (fusion_keys_are_phonetic_keys phonetic_two semantic_one)
    as (_ & Hkeys & _ & _ & Hnan).
  split.
  - apply Hkeys. repeat constructor; simpl; intuition discriminate.
  - apply Hnan.
    + right. now left.
    + intros [Heq | []]. discriminate.
Defined.

(* ================================================================= *)
(** ** The winning class *)

(** [a > b] on numbers that are not [NaN] is the strict part of a total
    preorder. *)
Lemma gt_false_trans (a b c : number) :
  b <> NaN -> gt a b = false -> gt b c = false -> gt a c = false.
Proof.
  intros Hb.
  destruct a as [x|[]|], b as [y|[]|], c as [z|[]|]; simpl;
    try congruence.
  rewrite !negb_false_iff, !Qle_bool_iff. intros Hxy Hyz. lra.
Qed.

Lemma gt_true_false (r x b : number) :
  gt r x = true -> gt r b = false -> gt x b = false.
Proof.
  destruct r as [u|[]|], x as [v|[]|], b as [w|[]|]; simpl;
    try congruence.
  rewrite negb_true_iff, !negb_false_iff, !Qle_bool_iff.
  intros Hvu Huw. apply not_true_iff_false in Hvu.
  rewrite Qle_bool_iff in Hvu. lra.
Qed.

(** The callback of the reduction, on entries instead of keys. *)
Definition pick (a b : string * number) : string * number :=
  if gt (snd a) (snd b) then a else b.

(** The reduction keeps the last entry among those of greatest score:
    nothing before it scores more, everything after it scores less. *)
Lemma fold_pick_last_greatest (l : list (string * number))
    (a : string * number) :
  (forall e, In e (a :: l) -> snd e <> NaN) ->
  exists before after,
    a :: l = before ++ fold_left pick l a :: after /\
    (forall e, In e before -> gt (snd e) (snd (fold_left pick l a)) = false) /\
    (forall e, In e after -> gt (snd (fold_left pick l a)) (snd e) = true).
Proof.
  induction l as [|b l IH] using rev_ind; intros Hnan.
  - exists [], []. simpl. repeat split; intros e [].
  - destruct IH as (before & after & Hsplit & Hbefore & Hafter).
    { intros e He. apply Hnan. simpl in *. destruct He as [He|He];
        [now left | right; apply in_or_app; now left]. }
    rewrite fold_left_app. simpl.
    set (r := fold_left pick l a) in *.
    assert (Hr : snd r <> NaN).
    { apply Hnan. rewrite app_comm_cons, Hsplit.
      apply in_or_app. left. apply in_or_app. right. now left. }
    unfold pick. destruct (gt (snd r) (snd b)) eqn:E.
    + exists before, (after ++ [b]). repeat split.
      * rewrite app_comm_cons, Hsplit, <- app_assoc. reflexivity.
      * exact Hbefore.
      * intros e He. apply in_app_or in He as [He | [<- | []]];
          [now apply Hafter | exact E].
    + exists (a :: l), []. repeat split.
      * intros e He. rewrite Hsplit in He.
        apply in_app_or in He as [He | [<- | He]].
        -- eapply gt_false_trans; [exact Hr | now apply Hbefore | exact E].
        -- exact E.
        -- eapply gt_true_false; [now apply Hafter | exact E].
      * intros e [].
Qed.

(** On a distribution whose keys occur once, reducing over the keys is
    reducing over the entries. *)
Lemma reduce_from_pick (d : obj number) (l : list (string * number))
    (a : string * number) :
  NoDup (keys d) -> (forall e, In e (a :: l) -> In e d) ->
  reduce_from (fun a b => Ok (if gt (score (get a d)) (score (get b d))
                              then a else b))
              (fst a) (map fst l)
  = Ok (fst (fold_left pick l a)).
Proof.
  intros Hnd. revert a. induction l as [|b l IH]; intros a Hin; simpl.
  - reflexivity.
  - assert (Ha : get (fst a) d = Own (snd a)).
    { unfold get. rewrite (get_own_NoDup (fst a) (snd a)); auto.
      rewrite <- surjective_pairing. apply Hin. now left. }
    assert (Hb : get (fst b) d = Own (snd b)).
    { unfold get. rewrite (get_own_NoDup (fst b) (snd b)); auto.
      rewrite <- surjective_pairing. apply Hin. right. now left. }
    rewrite Ha, Hb. simpl.
    replace (if gt (snd a) (snd b) then fst a else fst b)
      with (fst (pick a b)) by (unfold pick; now destruct (gt _ _)).
    apply IH. intros e [<- | He].
    + unfold pick. destruct (gt _ _); apply Hin; [now left | right; now left].
    + apply Hin. right. now right.
Qed.

(** What the design document asks of a tie: the first key, in iteration
    order, among those of greatest score. *)
Fixpoint first_greatest_from (best : string * number)
    (l : list (string * number)) : string :=
  match l with
  | [] => fst best
  | b :: l' => first_greatest_from (if gt (snd b) (snd best) then b else best) l'
  end.
Definition first_greatest (d : obj number) : option string :=
  match d with
  | [] => None
  | a :: l => Some (first_greatest_from a l)
  end.

Definition tied : obj number := [("0", decimal 1 2); ("1", decimal 1 2)].

(** C5, as stated, fails: on a tie the comparison [d[a] > d[b]] is false and
    the reduction moves on to [b], so the last of the tied keys wins, not
    the first. *)
Lemma argmax_tie_counterexample :
  argmax tied = Ok "1" /\
  first_greatest tied = Some "0" /\
  get "0" tied = get "1" tied.
Proof. repeat split. Qed.

(** C5, amended. On a distribution without keys [argmax] fails with the
    EmptyDistribution condition.  On a distribution with at least one key,
    whose keys occur once and whose scores are numbers, it answers a key of
    greatest score, and among the keys of greatest score the last one in
    iteration order: no earlier key scores more, every later key scores
    less. *)
Theorem argmax_last_greatest :
  forall d : obj number,
    (d = [] -> argmax d = Err EmptyDistribution) /\
    (d <> [] -> NoDup (keys d) ->
     (forall k v, In (k, v) d -> v <> NaN) ->
     exists before k v after,
       d = before ++ (k, v) :: after /\
       argmax d = Ok k /\
       (forall k' v', In (k', v') before -> gt v' v = false) /\
       (forall k' v', In (k', v') after -> gt v v' = true)).
Proof.
  intros d. split.
  - intros ->. reflexivity.
  - intros Hne Hnd Hnan. destruct d as [|a l]; [congruence|].
    destruct (fold_pick_last_greatest l a)
      as (before & after & Hsplit & Hbefore & Hafter).
    { intros [k v] He. simpl. eapply Hnan. exact He. }
    destruct (fold_left pick l a) as [k v] eqn:Er.
    exists before, k, v, after. repeat split.
    + exact Hsplit.
    + unfold argmax, keys.
      change (map fst (a :: l)) with (fst a :: map fst l). unfold reduce.
      rewrite (reduce_from_pick (a :: l) l a Hnd) by auto.
      now rewrite Er.
    + intros k' v' He. exact (Hbefore (k', v') He).
    + intros k' v' He. exact (Hafter (k', v') He).
Qed.

Lemma argmax_last_greatest_witness :
  exists before k v after,
    tied = before ++ (k, v) :: after /\
    argmax tied = Ok k /\
    (forall k' v', In (k', v') before -> gt v' v = false) /\
    (forall k' v', In (k', v') after -> gt v v' = true).
Proof.
  apply (proj2 (argmax_last_greatest tied)).
  - discriminate.
  - repeat constructor; simpl; intuition discriminate.
  - intros k v [He | [He | []]]; injection He as _ <-; discriminate.
Defined.

(* ================================================================= *)
(** ** The label mapping *)

Lemma set_add_spec (seen : list string) (w : string) :
  (In w seen /\ set_add seen w = seen) \/
  (~ In w seen /\ set_add seen w = seen ++ [w]).
Proof.
  unfold set_add. destruct (existsb (String.eqb w) seen) eqn:E.
  - left. split; [|reflexivity].
    apply existsb_exists in E as (x & Hx & Heq).
    apply String.eqb_eq in Heq. now subst x.
  - right. split; [|reflexivity]. intros Hin.
    rewrite (existsb_eqb_In w seen Hin) in E. discriminate.
Qed.

(** The set only grows, at its end. *)
Lemma set_grows (y seen : list string) :
  exists more, fold_left set_add y seen = seen ++ more.
Proof.
  revert seen. induction y as [|w y IH]; intros seen; simpl.
  - exists []. now rewrite app_nil_r.
  - destruct (set_add_spec seen w) as [[_ ->] | [_ ->]].
    + apply IH.
    + destruct (IH (seen ++ [w])) as [more ->].
      exists (w :: more). now rewrite <- app_assoc.
Qed.

Lemma set_NoDup (y seen : list string) :
  NoDup seen -> NoDup (fold_left set_add y seen).
Proof.
  revert seen. induction y as [|w y IH]; intros seen Hnd; simpl.
  - exact Hnd.
  - apply IH. destruct (set_add_spec seen w) as [[_ ->] | [Hw ->]].
    + exact Hnd.
    + apply NoDup_app; [exact Hnd | repeat constructor; intros [] |].
      intros x Hx [<- | []]. contradiction.
Qed.

Lemma set_In (y seen : list string) (w : string) :
  In w (fold_left set_add y seen) <-> In w seen \/ In w y.
Proof.
  revert seen. induction y as [|x y IH]; intros seen; simpl.
  - intuition.
  - rewrite IH. destruct (set_add_spec seen x) as [[Hx ->] | [_ ->]].
    + intuition (subst; auto).
    + rewrite in_app_iff. simpl. intuition.
Qed.

Lemma uniqueWords_NoDup (y : list string) : NoDup (uniqueWords y).
Proof. apply set_NoDup. constructor. Qed.

Lemma uniqueWords_In (y : list string) (w : string) :
  In w (uniqueWords y) <-> In w y.
Proof. unfold uniqueWords, spread_set. rewrite set_In. simpl. intuition. Qed.

(** A word enters the set at its first occurrence, after the distinct words
    that precede it. *)
Lemma uniqueWords_first_occurrence (pre post : list string) (w : string) :
  ~ In w pre ->
  exists more, uniqueWords (pre ++ w :: post) = uniqueWords pre ++ w :: more.
Proof.
  intros Hw. unfold uniqueWords, spread_set.
  rewrite fold_left_app. simpl.
  destruct (set_add_spec (fold_left set_add pre []) w) as [[Hin _] | [_ ->]].
  - exfalso. apply Hw. apply set_In in Hin as [[] | Hin]. exact Hin.
  - destruct (set_grows post (fold_left set_add pre [] ++ [w])) as [more ->].
    exists more. now rewrite <- app_assoc.
Qed.

Lemma mapi_from_fst (l : list string) (i : nat) :
  map fst (mapi_from (fun word i => (word, i)) i l) = l.
Proof.
  revert i. induction l as [|w l IH]; intros i; simpl; [reflexivity|].
  now rewrite IH.
Qed.

Lemma mapi_from_snd (l : list string) (i : nat) :
  map snd (mapi_from (fun word i => (word, i)) i l) = seq i (List.length l).
Proof.
  revert i. induction l as [|w l IH]; intros i; simpl; [reflexivity|].
  now rewrite IH.
Qed.

Lemma mapi_from_app (a b : list string) (i : nat) :
  mapi_from (fun word i => (word, i)) i (a ++ b)
  = mapi_from (fun word i => (word, i)) i a
    ++ mapi_from (fun word i => (word, i)) (i + List.length a) b.
Proof.
  revert i. induction a as [|w a IH]; intros i; simpl.
  - now rewrite Nat.add_0_r.
  - rewrite IH. do 3 f_equal. lia.
Qed.

Lemma build_wordMapping_entries (y : list string) :
  build_wordMapping y = mapi (fun word i => (word, i)) (uniqueWords y).
Proof.
  unfold build_wordMapping. apply fromEntries_NoDup.
  unfold mapi. rewrite mapi_from_fst. apply uniqueWords_NoDup.
Qed.

Lemma build_wordMapping_keys (y : list string) :
  keys (build_wordMapping y) = uniqueWords y.
Proof.
  rewrite build_wordMapping_entries. apply mapi_from_fst.
Qed.

Lemma build_wordMapping_values (y : list string) :
  map snd (build_wordMapping y) = seq 0 (List.length (uniqueWords y)).
Proof.
  rewrite build_wordMapping_entries. apply mapi_from_snd.
Qed.

(** [String(i)] tells indices apart. *)
Lemma string_of_index_inj (i j : nat) :
  string_of_index i = string_of_index j -> i = j.
Proof.
  unfold string_of_index. intros Heq.
  assert (Hu : Some (Nat.to_uint i) = Some (Nat.to_uint j)).
  { rewrite <- !NilEmpty.usu. now rewrite Heq. }
  injection Hu as Hu.
  rewrite <- (Unsigned.of_to i), <- (Unsigned.of_to j). now rewrite Hu.
Qed.

(** [[k, v] => [v, k]], the callback of [inverseMapping]. *)
Definition swap (e : string * nat) : string * string :=
  let '(k, v) := e in (string_of_index v, k).

Lemma inverse_keys_NoDup (es : list (string * nat)) :
  NoDup (map snd es) -> NoDup (map fst (map swap es)).
Proof.
  intros Hnd. rewrite map_map.
  replace (map (fun e => fst (swap e)) es)
    with (map string_of_index (map snd es)).
  - apply Finite.Injective_map_NoDup; [|exact Hnd].
    intros i j. apply string_of_index_inj.
  - rewrite map_map. apply map_ext. now intros [k v].
Qed.

(** Decoding reads back the word of an entry, in whatever order the
    entries of the mapping are enumerated. *)
Lemma decode_entry (m es : list (string * nat)) (w : string) (i : nat) :
  NoDup (map snd m) -> Permutation es m -> In (w, i) m ->
  get (string_of_index i) (fromEntries (map swap es)) = Own w.
Proof.
  intros Hnd Hperm Hin.
  assert (Hnd' : NoDup (map snd es)).
  { eapply Permutation_NoDup; [|exact Hnd].
    apply Permutation_map. now apply Permutation_sym. }
  unfold get. rewrite fromEntries_NoDup by now apply inverse_keys_NoDup.
  rewrite (get_own_NoDup (string_of_index i) w); [reflexivity | |].
  - now apply inverse_keys_NoDup.
  - change (string_of_index i, w) with (swap (w, i)). apply in_map.
    eapply Permutation_in; [|exact Hin]. now apply Permutation_sym.
Qed.

Lemma inverseMapping_swap (m : obj nat) :
  inverseMapping m = fromEntries (map swap (entries m)).
Proof.
  unfold inverseMapping. f_equal.
Qed.

Lemma get_own_Some_In {V} (k : string) (v : V) (o : obj V) :
  get_own k o = Some v -> In (k, v) o.
Proof.
  induction o as [|[k0 v0] o IH]; simpl; [discriminate|].
  destruct (String.eqb k k0) eqn:E.
  - apply String.eqb_eq in E. subst k0. intros [= ->]. now left.
  - intros Hk. right. now apply IH.
Qed.

Lemma get_entry {V} (k : string) (v : V) (o : obj V) :
  NoDup (keys o) -> In (k, v) o -> get k o = Own v.
Proof.
  intros Hnd Hin. unfold get. now rewrite (get_own_NoDup k v o Hnd Hin).
Qed.

(** [train] stores the mapping built from its labels as soon as the
    features of every sample could be extracted. *)
Lemma train_wordMapping `{Collaborators} (this : AgnosticBrainDecoder)
    (rawDataSamples : list RawData) (y : list string)
    (phoneticData semanticData : list (list number)) :
  map_m (extractPhoneticFeatures this) rawDataSamples = Ok phoneticData ->
  map_m (extractSemanticFeatures this) rawDataSamples = Ok semanticData ->
  wordMapping (fst (train this rawDataSamples y)) = build_wordMapping y.
Proof.
  intros Hp Hs. unfold train. rewrite Hp, Hs.
  destruct (brain_train (phoneticClassifier this) _) as [phonetic [u|e]];
    simpl; [|reflexivity].
  destruct (brain_train (semanticClassifier this) _) as [semantic r];
    reflexivity.
Qed.

(** C4. The mapping that [train] builds from a sequence of labels has the
    distinct labels as its keys and the indices [0 .. n-1] as its values,
    each once, [n] being the number of distinct labels; a label receives
    the number of distinct labels that precede its first occurrence; and
    decoding the index of a label gives the label back, in whatever order
    the entries of the mapping are enumerated.  On the labels
    [a, b, a] the mapping is [{a: 0, b: 1}], index 0 decodes to [a] and
    index 1 to [b]. *)
Theorem wordMapping_bijection :
  (forall y : list string,
      let m := build_wordMapping y in
      let n := List.length (uniqueWords y) in
      NoDup (keys m) /\
      (forall w, In w (keys m) <-> In w y) /\
      map snd m = seq 0 n /\
      (forall pre w post,
          y = pre ++ w :: post -> ~ In w pre ->
          get w m = Own (List.length (uniqueWords pre))) /\
      (forall w, In w y ->
         exists i, i < n /\ get w m = Own i /\
           get (string_of_index i) (inverseMapping m) = Own w /\
           forall es, Permutation es (entries m) ->
             get (string_of_index i) (fromEntries (map swap es)) = Own w) /\
      (forall i, i < n ->
         exists w, In w y /\ get w m = Own i /\
           get (string_of_index i) (inverseMapping m) = Own w)) /\
  (forall (C : Collaborators) (this : AgnosticBrainDecoder)
          (rawDataSamples : list RawData) (y : list string)
          (phoneticData semanticData : list (list number)),
      map_m (extractPhoneticFeatures this) rawDataSamples = Ok phoneticData ->
      map_m (extractSemanticFeatures this) rawDataSamples = Ok semanticData ->
      wordMapping (fst (train this rawDataSamples y)) = build_wordMapping y) /\
  build_wordMapping ["a"; "b"; "a"] = [("a", 0); ("b", 1)] /\
  get "0" (inverseMapping (build_wordMapping ["a"; "b"; "a"])) = Own "a" /\
  get "1" (inverseMapping (build_wordMapping ["a"; "b"; "a"])) = Own "b".
Proof.
  split; [|split; [intros; eapply train_wordMapping; eassumption
                  | repeat split]].
  intros y m n.
  assert (Hkeys : keys m = uniqueWords y) by apply build_wordMapping_keys.
  assert (Hvals : map snd m = seq 0 n) by apply build_wordMapping_values.
  assert (Hnd : NoDup (keys m)) by (rewrite Hkeys; apply uniqueWords_NoDup).
  assert (Hndv : NoDup (map snd m)) by (rewrite Hvals; apply seq_NoDup).
  assert (Hdecode : forall w i, In (w, i) m ->
            i < n /\ get w m = Own i /\
            get (string_of_index i) (inverseMapping m) = Own w /\
            forall es, Permutation es (entries m) ->
              get (string_of_index i) (fromEntries (map swap es)) = Own w).
  { intros w i Hin. split; [|split; [|split]].
    - assert (Hi : In i (map snd m))
        by (change i with (snd (w, i)); now apply in_map).
      rewrite Hvals in Hi. apply in_seq in Hi. lia.
    - now apply get_entry.
    - rewrite inverseMapping_swap.
      now apply (decode_entry m (entries m)).
    - intros es Hperm. now apply (decode_entry m es). }
  split; [exact Hnd|]. split; [|split; [exact Hvals|split; [|split]]].
  - intros w. rewrite Hkeys. apply uniqueWords_In.
  - intros pre w post -> Hw.
    destruct (uniqueWords_first_occurrence pre post w Hw) as [more Hmore].
    apply get_entry; [exact Hnd|].
    subst m. rewrite build_wordMapping_entries. unfold mapi.
    rewrite Hmore, mapi_from_app. apply in_or_app. right. now left.
  - intros w Hw. apply uniqueWords_In in Hw. rewrite <- Hkeys in Hw.
    apply get_own_In in Hw as [i Hi]. apply get_own_Some_In in Hi.
    exists i. now apply Hdecode.
  - intros i Hi.
    assert (Hin : In i (map snd m)) by (rewrite Hvals; apply in_seq; lia).
    apply in_map_iff in Hin as ([w j] & Hj & Hin). simpl in Hj. subst j.
    exists w. destruct (Hdecode w i Hin) as (_ & Hget & Hinv & _).
    repeat split; try assumption.
    apply uniqueWords_In. rewrite <- Hkeys.
    change w with (fst (w, i)). now apply in_map.
Qed.

Lemma wordMapping_bijection_witness :
  get "b" (build_wordMapping ["a"; "b"; "a"])
  = Own (List.length (uniqueWords ["a"])) /\
  (exists i, i < List.length (uniqueWords ["a"; "b"; "a"]) /\
     get "b" (build_wordMapping ["a"; "b"; "a"]) = Own i /\
     get (string_of_index i)
         (inverseMapping (build_wordMapping ["a"; "b"; "a"])) = Own "b" /\
     forall es, Permutation es (entries (build_wordMapping ["a"; "b"; "a"])) ->
       get (string_of_index i) (fromEntries (map swap es)) = Own "b") /\
  wordMapping (fst (train delta_decoder [two_by_two] ["a"]))
  = build_wordMapping ["a"].
Proof.
  destruct wordMapping_bijection as (Hmap & Htrain & _).
  destruct (Hmap ["a"; "b"; "a"]) as (_ & _ & _ & Hfirst & Hdecode & _).
  split; [|split].
  - apply (Hfirst ["a"] "b" ["a"]); [reflexivity|].
    intros [Heq | []]. discriminate.
  - apply Hdecode. right. now left.
  - apply (Htrain offline delta_decoder [two_by_two] ["a"]
                  [[decimal 45 8]] [[decimal 225 8]]);
      vm_compute; reflexivity.
Defined.

(* ================================================================= *)
(** ** Grounding and definition lookup *)

(** C7, as stated, fails: the string the decoder answers with starts with a
    capital letter. *)
Lemma findUniversalConcept_sentinel_counterexample :
  findUniversalConcept delta_decoder "cat" = Ok "Word not in vocabulary" /\
  findUniversalConcept delta_decoder "cat" <> Ok "word not in vocabulary".
Proof. split; [reflexivity | discriminate]. Qed.

(** C7, amended. For a word that has no entry in the embedding table and
    does not name a member of [Object.prototype], [findUniversalConcept]
    answers ["Word not in vocabulary"] and throws nothing. *)
Theorem findUniversalConcept_absent_word :
  forall (C : Collaborators) (this : AgnosticBrainDecoder) (word : string),
    get_own word (wordEmbeddings this) = None ->
    on_prototype word = false ->
    findUniversalConcept this word = Ok "Word not in vocabulary".
Proof.
  intros C this word Hown Hproto.
  unfold findUniversalConcept, js_in. now rewrite Hown, Hproto.
Qed.

Lemma findUniversalConcept_absent_word_witness :
  findUniversalConcept delta_decoder "cat" = Ok "Word not in vocabulary".
Proof.
  apply (findUniversalConcept_absent_word offline delta_decoder "cat");
    reflexivity.
Defined.

(** The embedding table starts empty and [train] leaves it as it is. *)
Lemma constructor_wordEmbeddings `{Collaborators}
    (bands : FrequencyBands) (rate : number) :
  wordEmbeddings (constructor bands rate) = [].
Proof. reflexivity. Qed.

Lemma train_wordEmbeddings `{Collaborators} (this : AgnosticBrainDecoder)
    (rawDataSamples : list RawData) (y : list string) :
  wordEmbeddings (fst (train this rawDataSamples y)) = wordEmbeddings this.
Proof.
  unfold train.
  destruct (map_m (extractPhoneticFeatures this) rawDataSamples);
    [|reflexivity].
  destruct (map_m (extractSemanticFeatures this) rawDataSamples);
    [|reflexivity].
  destruct (brain_train (phoneticClassifier this) _) as [phonetic [u|e]];
    simpl; [|reflexivity].
  destruct (brain_train (semanticClassifier this) _) as [semantic r];
    reflexivity.
Qed.

(** A decoder trained on one sample with the label [constructor]. *)
Definition trained_on_constructor : @AgnosticBrainDecoder offline :=
  fst (train delta_decoder [two_by_two] ["constructor"]).

(** C9: the code at the failing input.  The embedding table is empty, yet
    [word in this.wordEmbeddings] holds for ["constructor"], which every
    object inherits; the decoder then hands the inherited function to
    [mathjs.dot] and the call throws, for [findUniversalConcept] and for
    [processAndPredict] alike. *)
Theorem findUniversalConcept_inherited_name :
  (forall (C : Collaborators) (bands : FrequencyBands) (rate : number),
      findUniversalConcept (constructor bands rate) "constructor"
      = Err TypeError) /\
  wordEmbeddings trained_on_constructor = [] /\
  predict trained_on_constructor two_by_two = Ok (Own "constructor") /\
  processAndPredict trained_on_constructor two_by_two = Err TypeError.
Proof.
  split; [intros C bands rate; reflexivity|].
  split; [reflexivity|]. split; vm_compute; reflexivity.
Qed.

(** The lookup never throws. *)
Lemma getNormalizedDefinition_total `{Collaborators} (word : string) :
  exists v, getNormalizedDefinition word = Ok v.
Proof.
  unfold getNormalizedDefinition, try_catch.
  match goal with |- context [match ?body with _ => _ end] =>
    destruct body as [v|e] end; eauto.
Qed.

(** A request that throws is answered with the placeholder. *)
Lemma getNormalizedDefinition_request_fails `{Collaborators}
    (word : string) (e : error) :
  axios_get (dictionary_url word) = Err e ->
  getNormalizedDefinition word = Ok (VString "Definition not found").
Proof.
  intros Hget. unfold getNormalizedDefinition. now rewrite Hget.
Qed.

(** The word and the concept of a result are those that [predict] and
    [findUniversalConcept] give, whatever the lookup answered. *)
Lemma processAndPredict_fields `{Collaborators}
    (this : AgnosticBrainDecoder) (rawData : RawData)
    (word : property string) (concept : string) :
  predict this rawData = Ok word ->
  findUniversalConcept this (to_string word) = Ok concept ->
  exists def,
    getNormalizedDefinition (to_string word) = Ok def /\
    processAndPredict this rawData
    = Ok {| predictedWord := word;
            definition := def;
            universalConcept := concept |}.
Proof.
  intros Hword Hconcept.
  destruct (getNormalizedDefinition_total (to_string word)) as [def Hdef].
  exists def. split; [exact Hdef|].
  unfold processAndPredict. rewrite Hword. simpl.
  rewrite Hdef. simpl. now rewrite Hconcept.
Qed.

(** A response whose first definition object has no [definition] member:
    [[{meanings: [{definitions: [{}]}]}]]. *)
Definition no_definition_member : value :=
  VArray [VObject [("meanings",
    VArray [VObject [("definitions", VArray [VObject []])]])]].

Definition served_without_definition : Collaborators :=
  laboratory (Ok no_definition_member).

Definition trained_on_cat : @AgnosticBrainDecoder served_without_definition :=
  fst (train (constructor delta_only (of_nat 1000)) [two_by_two] ["cat"]).

(** C8: the code at the failing input.  When the response lacks the
    [definition] member nothing is thrown, the handler does not run, and
    the lookup answers [undefined] instead of the placeholder; the result
    of [processAndPredict] carries that [undefined]. *)
Theorem getNormalizedDefinition_missing_member :
  @getNormalizedDefinition served_without_definition "cat" = Ok VUndefined /\
  processAndPredict trained_on_cat two_by_two
  = Ok {| predictedWord := Own "cat";
          definition := VUndefined;
          universalConcept := "Word not in vocabulary" |}.
Proof. split; vm_compute; reflexivity. Qed.

(* ================================================================= *)
(** ** Feature vectors: layout, failure, composition *)

(** The power of a channel as the band loop computes it: the mean of the
    squared samples. *)
Definition channel_power (channel : list number) : number :=
  match Mathjs.mean (map square channel) with
  | Ok power => power
  | Err _ => NaN
  end.

(** The features of one channel, band after band. *)
Definition channel_features (bands : obj (number * number))
    (channel : list number) : list number :=
  map (fun band => mul (channel_power channel) (centerFreq band)) bands.

Section Features.

Context `{Collaborators}.

Lemma extract_closed_form (this : AgnosticBrainDecoder)
    (channel : list number) :
  channel <> [] ->
  extractWeightedBandPower this channel
  = Ok (channel_features (frequencyBands this) channel).
Proof.
  intros Hne. destruct (mean_nonempty channel Hne) as [power Hmean].
  unfold extractWeightedBandPower, channel_features, channel_power, entries.
  rewrite (band_loop_nonempty _ _ power) by exact Hmean.
  rewrite Hmean. reflexivity.
Qed.

(** The only way the extraction throws: an empty channel met with at least
    one band. *)
Lemma extract_outcome (this : AgnosticBrainDecoder) (channel : list number) :
  (channel = [] /\ frequencyBands this <> [] /\
   extractWeightedBandPower this channel = Err MeanOfEmptyArray) \/
  (exists features, extractWeightedBandPower this channel = Ok features).
Proof.
  destruct channel as [|x channel].
  - unfold extractWeightedBandPower, entries.
    destruct (frequencyBands this) as [|band bands].
    + right. exists []. reflexivity.
    + left. repeat split; [discriminate | apply band_loop_empty_data].
  - right. eexists. apply extract_closed_form. discriminate.
Qed.

Lemma map_m_app {A B} (f : A -> result B) (a b : list A) :
  map_m f (a ++ b)
  = (xs <- map_m f a ;; ys <- map_m f b ;; Ok (xs ++ ys)).
Proof.
  induction a as [|x a IH]; simpl.
  - destruct (map_m f b); reflexivity.
  - destruct (f x) as [y|e]; simpl; [|reflexivity].
    rewrite IH. destruct (map_m f a) as [xs|e]; simpl; [|reflexivity].
    destruct (map_m f b); reflexivity.
Qed.

Lemma preprocessData_map_m (this : AgnosticBrainDecoder) (rawData : RawData) :
  preprocessData this rawData
  = (perChannel <- map_m (extractWeightedBandPower this) rawData ;;
     Ok (List.concat perChannel)).
Proof. unfold preprocessData. now rewrite channel_loop_map_m. Qed.

Lemma preprocessData_app (this : AgnosticBrainDecoder) (a b : RawData) :
  preprocessData this (a ++ b)
  = (fa <- preprocessData this a ;; fb <- preprocessData this b ;;
     Ok (fa ++ fb)).
Proof.
  rewrite !preprocessData_map_m, map_m_app.
  destruct (map_m (extractWeightedBandPower this) a) as [xs|e]; simpl;
    [|reflexivity].
  destruct (map_m (extractWeightedBandPower this) b) as [ys|e]; simpl;
    [|reflexivity].
  now rewrite concat_app.
Qed.

Lemma preprocessData_cons (this : AgnosticBrainDecoder)
    (channel : list number) (rest : RawData) :
  preprocessData this (channel :: rest)
  = (f <- extractWeightedBandPower this channel ;;
     fs <- preprocessData this rest ;; Ok (f ++ fs)).
Proof.
  rewrite !preprocessData_map_m. simpl.
  destruct (extractWeightedBandPower this channel) as [f|e]; simpl;
    [|reflexivity].
  destruct (map_m (extractWeightedBandPower this) rest); reflexivity.
Qed.

(** Cutting the channels in two and putting the features end to end. *)
Lemma preprocessData_halves (this : AgnosticBrainDecoder) (data : RawData) :
  preprocessData this data
  = (phonetic <- extractPhoneticFeatures this data ;;
     semantic <- extractSemanticFeatures this data ;;
     Ok (phonetic ++ semantic)).
Proof.
  unfold extractPhoneticFeatures, extractSemanticFeatures, slice_from.
  rewrite slice_0, <- preprocessData_app, firstn_skipn. reflexivity.
Qed.

Lemma preprocessData_In_empty (this : AgnosticBrainDecoder)
    (rawData : RawData) :
  frequencyBands this <> [] -> In [] rawData ->
  preprocessData this rawData = Err MeanOfEmptyArray.
Proof.
  intros Hbands.
  induction rawData as [|channel rest IH]; intros Hin; [destruct Hin|].
  rewrite preprocessData_cons.
  destruct (extract_outcome this channel) as [(_ & _ & ->) | [f Hf]];
    [reflexivity|].
  rewrite Hf. simpl. destruct Hin as [-> | Hin].
  - exfalso. unfold extractWeightedBandPower, entries in Hf.
    destruct (frequencyBands this) as [|band bands]; [congruence|].
    rewrite band_loop_empty_data in Hf. discriminate.
  - now rewrite (IH Hin).
Qed.

End Features.

(** X1. Layout of the feature vector.  When no channel is empty,
    [preprocessData] answers the features channel after channel and, within
    a channel, band after band: the entry of channel [c] and band [b] is the
    mean of the squared samples of [c] times the centre frequency of [b].
    Its length is the number of channels times the number of bands. *)
Theorem preprocessData_layout :
  forall (C : Collaborators) (this : AgnosticBrainDecoder) (rawData : RawData),
    (forall channel, In channel rawData -> channel <> []) ->
    preprocessData this rawData
    = Ok (flat_map (channel_features (frequencyBands this)) rawData) /\
    List.length (flat_map (channel_features (frequencyBands this)) rawData)
    = List.length rawData * List.length (frequencyBands this).
Proof.
  intros C this rawData. induction rawData as [|channel rest IH]; intros Hne.
  - split; reflexivity.
  - destruct IH as [IHv IHl]. { intros c Hc. apply Hne. now right. }
    split.
    + rewrite preprocessData_cons, extract_closed_form by (apply Hne; now left).
      simpl. rewrite IHv. reflexivity.
    + simpl. rewrite length_app, IHl. unfold channel_features.
      now rewrite length_map.
Qed.

Lemma preprocessData_layout_witness :
  preprocessData delta_decoder two_by_two
  = Ok (flat_map (channel_features (frequencyBands delta_decoder)) two_by_two)
  /\ List.length
       (flat_map (channel_features (frequencyBands delta_decoder)) two_by_two)
     = List.length two_by_two * List.length (frequencyBands delta_decoder).
Proof.
  apply (preprocessData_layout offline delta_decoder two_by_two).
  intros channel [<- | [<- | []]]; discriminate.
Defined.

(** X2. The two pathways share out the whole feature vector.  Extracting the
    phonetic features and then the semantic features, and putting the two
    vectors end to end, is the same as running [preprocessData] on the whole
    sample: the same vector when it succeeds, the same exception when it
    throws. *)
Theorem pathways_partition_features :
  forall (C : Collaborators) (this : AgnosticBrainDecoder) (data : RawData),
    preprocessData this data
    = (phonetic <- extractPhoneticFeatures this data ;;
       semantic <- extractSemanticFeatures this data ;;
       Ok (phonetic ++ semantic)).
Proof.
  intros C this data. apply preprocessData_halves.
Qed.

(** X3. When the band table has at least one band, [preprocessData]
    succeeds exactly on the samples without an empty channel, and on a
    sample with an empty channel it throws the exception of [mathjs.mean]
    on an empty array, wherever the empty channel stands. *)
Theorem preprocessData_fails_on_empty_channel :
  forall (C : Collaborators) (this : AgnosticBrainDecoder) (rawData : RawData),
    frequencyBands this <> [] ->
    (In [] rawData -> preprocessData this rawData = Err MeanOfEmptyArray) /\
    ((exists features, preprocessData this rawData = Ok features)
     <-> ~ In [] rawData).
Proof.
  intros C this rawData Hbands.
  split; [now apply preprocessData_In_empty|]. split.
  - intros [features Hok] Hin.
    rewrite (preprocessData_In_empty this rawData Hbands Hin) in Hok.
    discriminate.
  - intros Hnone.
    destruct (preprocessData_nonempty this rawData) as (fs & _ & Hok & _).
    + intros channel Hc ->. contradiction.
    + eauto.
Qed.

Lemma preprocessData_fails_on_empty_channel_witness :
  preprocessData delta_decoder [[of_nat 1]; []; [of_nat 2]]
  = Err MeanOfEmptyArray.
Proof.
  apply (proj1 (preprocessData_fails_on_empty_channel offline delta_decoder
                  [[of_nat 1]; []; [of_nat 2]] ltac:(discriminate))).
  right. now left.
Defined.

Lemma add_NaN_r (a : number) : add a NaN = NaN.
Proof. destruct a; reflexivity. Qed.

Lemma fold_add_NaN (xs : list number) : fold_left add xs NaN = NaN.
Proof. induction xs as [|x xs IH]; simpl; [reflexivity | exact IH]. Qed.

Lemma fold_add_poisoned (xs : list number) (x : number) :
  In NaN xs -> fold_left add xs x = NaN.
Proof.
  revert x. induction xs as [|y xs IH]; intros x Hin; [destruct Hin|].
  simpl. destruct Hin as [-> | Hin].
  - rewrite add_NaN_r. apply fold_add_NaN.
  - now apply IH.
Qed.

Lemma channel_power_poisoned (channel : list number) :
  In NaN channel -> channel_power channel = NaN.
Proof.
  intros Hin. unfold channel_power.
  destruct channel as [|x channel]; [destruct Hin|]. simpl.
  destruct Hin as [-> | Hin].
  - simpl. now rewrite fold_add_NaN.
  - rewrite fold_add_poisoned; [reflexivity|].
    change NaN with (square NaN). now apply in_map.
Qed.

(** X4. A sample that is [NaN] is not rejected: the extraction succeeds and
    every feature of the channel is [NaN]. *)
Theorem extractWeightedBandPower_propagates_NaN :
  forall (C : Collaborators) (this : AgnosticBrainDecoder)
         (data : list number),
    In NaN data ->
    extractWeightedBandPower this data
    = Ok (map (fun _ => NaN) (frequencyBands this)).
Proof.
  intros C this data Hin.
  rewrite extract_closed_form by (intros ->; destruct Hin).
  unfold channel_features. now rewrite channel_power_poisoned.
Qed.

Lemma extractWeightedBandPower_propagates_NaN_witness :
  extractWeightedBandPower delta_decoder [of_nat 1; NaN; of_nat 3]
  = Ok (map (fun _ => NaN) (frequencyBands delta_decoder)).
Proof.
  apply (extractWeightedBandPower_propagates_NaN offline delta_decoder
           [of_nat 1; NaN; of_nat 3]).
  right. now left.
Defined.

(** X5. A sample with a single channel has no phonetic half: its phonetic
    features are empty whatever the channel holds, even when the channel is
    empty, and its semantic features are those of the whole channel. *)
Theorem single_channel_pathways :
  forall (C : Collaborators) (this : AgnosticBrainDecoder)
         (channel : list number),
    extractPhoneticFeatures this [channel] = Ok [] /\
    extractSemanticFeatures this [channel]
    = extractWeightedBandPower this channel.
Proof.
  intros C this channel. split; [reflexivity|].
  unfold extractSemanticFeatures, slice_from, half_length. simpl.
  rewrite preprocessData_cons.
  destruct (extractWeightedBandPower this channel) as [f|e]; simpl;
    [|reflexivity].
  now rewrite app_nil_r.
Qed.

(* ================================================================= *)
(** ** Training *)

Section Training.

Context `{Collaborators}.

Lemma map_m_In_Err {A B} (f : A -> result B) (l : list A) (x : A) (e : error) :
  In x l -> f x = Err e -> exists e', map_m f l = Err e'.
Proof.
  induction l as [|a l IH]; intros Hin Hx; [destruct Hin|]. simpl.
  destruct Hin as [-> | Hin].
  - rewrite Hx. simpl. eauto.
  - destruct (f a) as [b|e0]; simpl; [|eauto].
    destruct (IH Hin Hx) as [e' ->]. simpl. eauto.
Qed.

Lemma map_m_Err_from {A B} (f : A -> result B) (l : list A) (e : error) :
  map_m f l = Err e -> exists x, In x l /\ f x = Err e.
Proof.
  induction l as [|a l IH]; simpl; [discriminate|].
  destruct (f a) as [b|e0] eqn:Ea; simpl.
  - destruct (map_m f l) as [bs|e1]; simpl; [discriminate|].
    intros [= ->]. destruct (IH eq_refl) as (x & Hx & Hfx).
    exists x. split; [now right | exact Hfx].
  - intros [= ->]. exists a. split; [now left | exact Ea].
Qed.

Lemma preprocessData_error (this : AgnosticBrainDecoder) (rawData : RawData)
    (e : error) :
  preprocessData this rawData = Err e -> e = MeanOfEmptyArray.
Proof.
  rewrite preprocessData_map_m.
  destruct (map_m (extractWeightedBandPower this) rawData) as [fs|e0] eqn:E;
    simpl; [discriminate|].
  intros [= <-]. apply map_m_Err_from in E as (channel & _ & Hc).
  destruct (extract_outcome this channel) as [(_ & _ & Hf) | [f Hf]];
    congruence.
Qed.

(** The features depend on the decoder through its band table only. *)
Lemma preprocessData_bands (this that : AgnosticBrainDecoder)
    (rawData : RawData) :
  frequencyBands this = frequencyBands that ->
  preprocessData this rawData = preprocessData that rawData.
Proof.
  intros Hbands. rewrite !preprocessData_map_m.
  replace (map_m (extractWeightedBandPower that) rawData)
    with (map_m (extractWeightedBandPower this) rawData); [reflexivity|].
  induction rawData as [|channel rest IH]; simpl; [reflexivity|].
  rewrite IH. unfold extractWeightedBandPower. now rewrite Hbands.
Qed.

Lemma train_frequencyBands (this : AgnosticBrainDecoder)
    (rawDataSamples : list RawData) (y : list string) :
  frequencyBands (fst (train this rawDataSamples y)) = frequencyBands this /\
  samplingRate (fst (train this rawDataSamples y)) = samplingRate this.
Proof.
  unfold train.
  destruct (map_m (extractPhoneticFeatures this) rawDataSamples);
    [|split; reflexivity].
  destruct (map_m (extractSemanticFeatures this) rawDataSamples);
    [|split; reflexivity].
  destruct (brain_train (phoneticClassifier this) _) as [phonetic [u|e]];
    simpl; [|split; reflexivity].
  destruct (brain_train (semanticClassifier this) _) as [semantic r];
    split; reflexivity.
Qed.

Lemma nth_error_mapi_from {A B} (f : A -> nat -> B) (l : list A)
    (start i : nat) :
  nth_error (mapi_from f start l) i
  = match nth_error l i with
    | Some x => Some (f x (start + i))
    | None => None
    end.
Proof.
  revert start i. induction l as [|a l IH]; intros start i.
  - destruct i; reflexivity.
  - destruct i as [|i]; simpl.
    + now rewrite Nat.add_0_r.
    + rewrite IH. replace (S start + i) with (start + S i) by lia.
      reflexivity.
Qed.

Lemma length_mapi_from {A B} (f : A -> nat -> B) (l : list A) (start : nat) :
  List.length (mapi_from f start l) = List.length l.
Proof.
  revert start. induction l as [|a l IH]; intros start; simpl;
    [reflexivity | now rewrite IH].
Qed.

(** A label of the training sequence is encoded by an index that decodes
    back to it. *)
Lemma encode_decode (y : list string) (w : string) :
  In w y ->
  exists i,
    get w (build_wordMapping y) = Own i /\
    get (string_of_index i) (inverseMapping (build_wordMapping y)) = Own w.
Proof.
  intros Hw. apply uniqueWords_In in Hw.
  rewrite <- build_wordMapping_keys in Hw.
  assert (Hnd : NoDup (keys (build_wordMapping y)))
    by (rewrite build_wordMapping_keys; apply uniqueWords_NoDup).
  assert (Hndv : NoDup (map snd (build_wordMapping y)))
    by (rewrite build_wordMapping_values; apply seq_NoDup).
  apply get_own_In in Hw as [i Hi]. apply get_own_Some_In in Hi.
  exists i. split; [now apply get_entry|].
  rewrite inverseMapping_swap.
  now apply (decode_entry (build_wordMapping y) (entries (build_wordMapping y))).
Qed.

End Training.

(** X6. [train] checks nothing up front but is all-or-nothing with respect
    to the features: when the band table has at least one band and some
    sample holds an empty channel, the call throws the exception of
    [mathjs.mean] before any assignment, and the decoder is left exactly as
    it was (mapping and networks included). *)
Theorem train_empty_channel_leaves_decoder :
  forall (C : Collaborators) (this : AgnosticBrainDecoder)
         (rawDataSamples : list RawData) (y : list string)
         (sample : RawData),
    frequencyBands this <> [] ->
    In sample rawDataSamples -> In [] sample ->
    train this rawDataSamples y = (this, Err MeanOfEmptyArray).
Proof.
  intros C this samples y sample Hbands Hsample Hempty.
  assert (Hkind : forall f : AgnosticBrainDecoder -> RawData -> result _,
            (f = extractPhoneticFeatures \/ f = extractSemanticFeatures) ->
            forall e, map_m (f this) samples = Err e -> e = MeanOfEmptyArray).
  { intros f Hf e He. apply map_m_Err_from in He as (x & _ & Hx).
    destruct Hf as [-> | ->]; eapply preprocessData_error; exact Hx. }
  assert (Hwhole : preprocessData this sample = Err MeanOfEmptyArray)
    by (now apply preprocessData_In_empty).
  unfold train.
  destruct (map_m (extractPhoneticFeatures this) samples) as [ps|e] eqn:Ep.
  - destruct (map_m (extractSemanticFeatures this) samples) as [ss|e] eqn:Es.
    + exfalso.
      rewrite (preprocessData_halves this sample) in Hwhole.
      destruct (extractPhoneticFeatures this sample) as [p|e] eqn:Hp.
      * destruct (extractSemanticFeatures this sample) as [s|e] eqn:Hs;
          [discriminate|].
        destruct (map_m_In_Err _ samples sample e Hsample Hs) as [e' He'].
        congruence.
      * destruct (map_m_In_Err _ samples sample e Hsample Hp) as [e' He'].
        congruence.
    + now rewrite (Hkind extractSemanticFeatures (or_intror eq_refl) e Es).
  - now rewrite (Hkind extractPhoneticFeatures (or_introl eq_refl) e Ep).
Qed.

(** A decoder that already holds a mapping, for observing what a failed
    call leaves behind. *)
Definition trained_on_ab : @AgnosticBrainDecoder offline :=
  fst (train delta_decoder [two_by_two; two_by_two] ["a"; "b"]).

Lemma train_empty_channel_leaves_decoder_witness :
  train trained_on_ab [two_by_two; [[of_nat 1]; []]] ["c"; "d"]
  = (trained_on_ab, Err MeanOfEmptyArray).
Proof.
  apply (train_empty_channel_leaves_decoder offline trained_on_ab
           [two_by_two; [[of_nat 1]; []]] ["c"; "d"] [[of_nat 1]; []]).
  - discriminate.
  - right. now left.
  - right. now left.
Defined.

(** X7. Whatever its outcome, [train] leaves the band table, the sampling
    rate and the embedding table as they were; so the features extracted
    from a sample at prediction time are those extracted from it at
    training time. *)
Theorem train_keeps_feature_extraction :
  forall (C : Collaborators) (this : AgnosticBrainDecoder)
         (rawDataSamples : list RawData) (y : list string) (data : RawData),
    let after := fst (train this rawDataSamples y) in
    frequencyBands after = frequencyBands this /\
    samplingRate after = samplingRate this /\
    wordEmbeddings after = wordEmbeddings this /\
    extractPhoneticFeatures after data = extractPhoneticFeatures this data /\
    extractSemanticFeatures after data = extractSemanticFeatures this data.
Proof.
  intros C this samples y data after.
  destruct (train_frequencyBands this samples y) as [Hbands Hrate].
  split; [exact Hbands|]. split; [exact Hrate|].
  split; [apply train_wordEmbeddings|].
  split; apply preprocessData_bands; exact Hbands.
Qed.

(** X8. What the networks are trained on.  There is one training example
    per sample, labels in excess are ignored, and the example of sample
    [i] pairs its features with an output object of a single key scored 1.
    When the sample has a label, that key is the index of the label, which
    the inverse mapping decodes back to the label; when the labels have run
    out, the key is the string ["undefined"]. *)
Theorem training_set_alignment :
  forall (C : Collaborators) (data : list (list number)) (y : list string),
    let mapping := build_wordMapping y in
    let yEncoded := map (fun word => get word mapping) y in
    List.length (training_set data yEncoded) = List.length data /\
    forall i input,
      nth_error data i = Some input ->
      exists key,
        nth_error (training_set data yEncoded) i
        = Some (input, [(key, of_nat 1)]) /\
        (forall word, nth_error y i = Some word ->
                      get key (inverseMapping mapping) = Own word) /\
        (nth_error y i = None -> key = "undefined").
Proof.
  intros C data y mapping yEncoded. split.
  - apply length_mapi_from.
  - intros i input Hi. unfold training_set, mapi.
    rewrite nth_error_mapi_from, Hi. simpl.
    eexists. split; [reflexivity|]. subst yEncoded.
    rewrite nth_error_map. split.
    + intros word Hword. rewrite Hword. simpl.
      destruct (encode_decode y word) as (j & Hj & Hback).
      { eapply nth_error_In. exact Hword. }
      subst mapping. rewrite Hj. exact Hback.
    + intros Hnone. now rewrite Hnone.
Qed.

Lemma training_set_alignment_witness :
  exists key,
    nth_error (@training_set offline [[of_nat 7]; [of_nat 8]]
                 (map (fun word => get word (build_wordMapping ["a"]))
                      ["a"])) 0
    = Some ([of_nat 7], [(key, of_nat 1)]) /\
    (forall word, nth_error ["a"] 0 = Some word ->
                  get key (inverseMapping (build_wordMapping ["a"]))
                  = Own word) /\
    (nth_error ["a"] 0 = None -> key = "undefined").
Proof.
  apply (proj2 (training_set_alignment offline
                  [[of_nat 7]; [of_nat 8]] ["a"]) 0 [of_nat 7]).
  reflexivity.
Defined.

(* ================================================================= *)
(** ** Fusion and the winning class, continued *)

Lemma add_comm (a b : number) : add a b = add b a.
Proof.
  destruct a as [x|s|], b as [y|t|]; unfold add; try reflexivity.
  - f_equal. apply Qred_complete. apply Qplus_comm.
  - destruct s, t; reflexivity.
Qed.

Lemma average_comm (p s : property number) : average p s = average s p.
Proof.
  destruct p as [x| |], s as [y| |]; unfold average; try reflexivity.
  now rewrite add_comm.
Qed.

(** X9. Fusion treats the two pathways alike on the keys they share: a key
    held by both distributions gets the same fused score whichever
    distribution comes first, and two distributions that list the same keys
    in the same order fuse to the same distribution in either order. *)
Theorem fusion_symmetric_on_shared_keys :
  forall (p s : obj number),
    (forall k, In k (keys p) -> In k (keys s) ->
               get_own k (combine p s) = get_own k (combine s p)) /\
    (keys p = keys s -> combine p s = combine s p).
Proof.
  intros p s. split.
  - intros k Hp Hs. rewrite !get_own_combine.
    rewrite !existsb_eqb_In by assumption. now rewrite average_comm.
  - intros Hkeys. unfold combine. rewrite Hkeys. f_equal.
    apply map_ext. intros k. now rewrite average_comm.
Qed.

Lemma fusion_symmetric_on_shared_keys_witness :
  get_own "0" (combine phonetic_two semantic_one)
  = get_own "0" (combine semantic_one phonetic_two).
Proof.
  apply (proj1 (fusion_symmetric_on_shared_keys phonetic_two semantic_one)).
  - now left.
  - now left.
Defined.

(** A reduction whose callback answers one of its two arguments answers an
    element of the array. *)
Lemma reduce_from_selects {A} (f : A -> A -> result A) (l : list A)
    (acc r : A) :
  (forall a b c, f a b = Ok c -> c = a \/ c = b) ->
  reduce_from f acc l = Ok r -> In r (acc :: l).
Proof.
  intros Hsel. revert acc. induction l as [|b l IH]; intros acc; simpl.
  - intros [= ->]. now left.
  - destruct (f acc b) as [c|e] eqn:E; simpl; [|discriminate].
    intros Hr. apply IH in Hr. destruct (Hsel _ _ _ E) as [-> | ->].
    + destruct Hr as [-> | Hr]; [now left | right; now right].
    + right. exact Hr.
Qed.

Lemma reduce_from_total {A} (f : A -> A -> result A) (l : list A) (acc : A) :
  (forall a b, exists c, f a b = Ok c) ->
  exists r, reduce_from f acc l = Ok r.
Proof.
  intros Htot. revert acc. induction l as [|b l IH]; intros acc; simpl.
  - eauto.
  - destruct (Htot acc b) as [c ->]. simpl. apply IH.
Qed.

(** X10. On a distribution with at least one key [argmax] never throws,
    whatever the scores ([NaN] included), and the key it answers is a key
    of the distribution. *)
Theorem argmax_answers_a_key :
  forall d : obj number,
    (d <> [] -> exists k, argmax d = Ok k) /\
    (forall k, argmax d = Ok k -> In k (keys d)).
Proof.
  intros d. unfold argmax, keys. split.
  - intros Hne. destruct d as [|[k v] d]; [congruence|]. simpl.
    apply reduce_from_total. intros a b. eauto.
  - intros k Hk. destruct d as [|[k0 v0] d]; [discriminate|].
    simpl in Hk. apply reduce_from_selects in Hk; [exact Hk|].
    intros a b c [= <-]. destruct (gt _ _); auto.
Qed.

Lemma argmax_answers_a_key_witness :
  exists k, argmax [("0", NaN); ("1", decimal 1 2)] = Ok k.
Proof.
  apply (proj1 (argmax_answers_a_key [("0", NaN); ("1", decimal 1 2)])).
  discriminate.
Defined.

Lemma argmax_fold_pick (a : string * number) (l : list (string * number)) :
  NoDup (keys (a :: l)) ->
  argmax (a :: l) = Ok (fst (fold_left pick l a)).
Proof.
  intros Hnd. unfold argmax, keys.
  change (map fst (a :: l)) with (fst a :: map fst l). unfold reduce.
  now rewrite (reduce_from_pick (a :: l) l a Hnd) by auto.
Qed.

Lemma gt_NaN_r (a : number) : gt a NaN = false.
Proof. destruct a as [x|[]|]; reflexivity. Qed.

Lemma fold_pick_after_NaN (pre post : list (string * number))
    (a : string * number) (k : string) :
  fold_left pick (pre ++ (k, NaN) :: post) a = fold_left pick post (k, NaN).
Proof.
  rewrite fold_left_app. simpl. unfold pick at 2. simpl.
  now rewrite gt_NaN_r.
Qed.

(** X11. A score that is [NaN] wipes out what came before it.  On a
    distribution whose keys occur once, when a key scores [NaN] the keys
    before it cannot win: the answer is that of the distribution cut after
    the [NaN] key, or the [NaN] key itself when it comes last. *)
Theorem argmax_forgets_before_NaN :
  forall (pre post : obj number) (k : string),
    NoDup (keys (pre ++ (k, NaN) :: post)) ->
    argmax (pre ++ (k, NaN) :: post)
    = match post with
      | [] => Ok k
      | _ :: _ => argmax post
      end.
Proof.
  intros pre post k Hnd.
  assert (Hpost : NoDup (keys post)).
  { unfold keys in *. rewrite map_app in Hnd. simpl in Hnd.
    apply NoDup_app_remove_l in Hnd. now inversion Hnd. }
  assert (Hall : argmax (pre ++ (k, NaN) :: post)
                 = Ok (fst (fold_left pick post (k, NaN)))).
  { destruct pre as [|a pre].
    - simpl. now rewrite argmax_fold_pick.
    - simpl. rewrite argmax_fold_pick by exact Hnd.
      now rewrite fold_pick_after_NaN. }
  rewrite Hall. destruct post as [|b post]; [reflexivity|].
  rewrite argmax_fold_pick by exact Hpost.
  simpl. unfold pick at 2. reflexivity.
Qed.

Lemma argmax_forgets_before_NaN_witness :
  argmax ([("0", decimal 9 10)] ++ ("1", NaN) :: [("2", decimal 1 10)])
  = argmax [("2", decimal 1 10)].
Proof.
  apply (argmax_forgets_before_NaN
           [("0", decimal 9 10)] [("2", decimal 1 10)] "1").
  repeat constructor; simpl; intuition discriminate.
Defined.

(* ================================================================= *)
(** ** Encoding and decoding outside the mapping *)

Lemma inverseMapping_own (m : obj nat) (k w : string) :
  get_own k (inverseMapping m) = Some w ->
  exists i, In (w, i) m /\ k = string_of_index i.
Proof.
  rewrite inverseMapping_swap, get_own_fromEntries. intros Hk.
  apply get_own_Some_In in Hk. apply in_rev in Hk.
  apply in_map_iff in Hk as ([w' i] & Heq & Hin). simpl in Heq.
  injection Heq as <- <-. eauto.
Qed.

(** No index is spelled like a member of [Object.prototype]. *)
Lemma string_of_index_not_inherited (i : nat) :
  on_prototype (string_of_index i) = false.
Proof.
  destruct (on_prototype (string_of_index i)) eqn:E; [|reflexivity].
  unfold on_prototype in E. apply existsb_exists in E as (name & Hname & Heq).
  apply String.eqb_eq in Heq.
  assert (Hparse : NilEmpty.uint_of_string name = Some (Nat.to_uint i)).
  { rewrite <- Heq. apply NilEmpty.usu. }
  exfalso. revert Hparse. clear Heq.
  repeat (destruct Hname as [<- | Hname]; [vm_compute; discriminate|]).
  destruct Hname.
Qed.

(** X12. Reads outside the mapping do not throw.  A word that is not among
    the training labels encodes to [undefined], or to the inherited member
    when it names one of [Object.prototype]; an index at or beyond the
    number of distinct labels decodes to [undefined]. *)
Theorem codec_outside_mapping :
  forall (y : list string),
    (forall word, ~ In word y ->
       get word (build_wordMapping y)
       = if on_prototype word then Inherited word else Undefined) /\
    (forall i, List.length (uniqueWords y) <= i ->
       get (string_of_index i) (inverseMapping (build_wordMapping y))
       = Undefined).
Proof.
  intros y. split.
  - intros word Hword. unfold get.
    replace (get_own word (build_wordMapping y)) with (@None nat);
      [reflexivity|].
    symmetry. apply get_own_None.
    rewrite build_wordMapping_keys, uniqueWords_In. exact Hword.
  - intros i Hi. unfold get.
    destruct (get_own (string_of_index i)
                (inverseMapping (build_wordMapping y))) as [w|] eqn:E.
    + exfalso. apply inverseMapping_own in E as (j & Hin & Heq).
      apply string_of_index_inj in Heq. subst j.
      assert (Hval : In i (map snd (build_wordMapping y)))
        by (change i with (snd (w, i)); now apply in_map).
      rewrite build_wordMapping_values in Hval. apply in_seq in Hval. lia.
    + now rewrite string_of_index_not_inherited.
Qed.

Lemma codec_outside_mapping_witness :
  get "toString" (build_wordMapping ["a"; "b"; "a"])
  = (if on_prototype "toString" then Inherited "toString" else Undefined) /\
  get (string_of_index 2) (inverseMapping (build_wordMapping ["a"; "b"; "a"]))
  = Undefined.
Proof.
  destruct (codec_outside_mapping ["a"; "b"; "a"]) as [Hencode Hdecode].
  split.
  - apply Hencode. simpl. intuition discriminate.
  - apply Hdecode. vm_compute. lia.
Defined.

(* ================================================================= *)
(** ** Prediction *)

(** X13. [predict] cannot make up a word.  A word it answers is a key of
    the decoder's mapping; so after a call to [train] whose feature
    extraction succeeded, a word answered by [predict] is one of the labels
    given to that call, whatever the networks answer and whatever the
    decoder was trained on before. *)
Theorem predict_answers_a_label :
  (forall (C : Collaborators) (this : AgnosticBrainDecoder)
          (rawData : RawData) (word : string),
      predict this rawData = Ok (Own word) ->
      exists i, In (word, i) (wordMapping this)) /\
  (forall (C : Collaborators) (this : AgnosticBrainDecoder)
          (rawDataSamples : list RawData) (y : list string)
          (phoneticData semanticData : list (list number))
          (rawData : RawData) (word : string),
      map_m (extractPhoneticFeatures this) rawDataSamples = Ok phoneticData ->
      map_m (extractSemanticFeatures this) rawDataSamples = Ok semanticData ->
      predict (fst (train this rawDataSamples y)) rawData = Ok (Own word) ->
      In word y).
Proof.
  assert (Hmapping : forall (C : Collaborators) (this : AgnosticBrainDecoder)
                            (rawData : RawData) (word : string),
             predict this rawData = Ok (Own word) ->
             exists i, In (word, i) (wordMapping this)).
  { intros C this rawData word. unfold predict.
    destruct (extractPhoneticFeatures this rawData) as [pf|e]; simpl;
      [|discriminate].
    destruct (extractSemanticFeatures this rawData) as [sf|e]; simpl;
      [|discriminate].
    destruct (brain_run (phoneticClassifier this) pf) as [p|e]; simpl;
      [|discriminate].
    destruct (brain_run (semanticClassifier this) sf) as [s|e]; simpl;
      [|discriminate].
    destruct (argmax (combine p s)) as [k|e]; simpl; [|discriminate].
    unfold get.
    destruct (get_own k (inverseMapping (wordMapping this))) as [w|] eqn:E.
    - intros [= ->]. apply inverseMapping_own in E as (i & Hin & _). eauto.
    - destruct (on_prototype k); discriminate. }
  split; [exact Hmapping|].
  intros C this samples y pd sd rawData word Hp Hs Hpredict.
  apply Hmapping in Hpredict as [i Hin].
  rewrite (train_wordMapping this samples y pd sd Hp Hs) in Hin.
  apply uniqueWords_In. rewrite <- build_wordMapping_keys.
  change word with (fst (word, i)). now apply in_map.
Qed.

Lemma predict_answers_a_label_witness :
  (exists i, In ("constructor", i) (wordMapping trained_on_constructor)) /\
  In "constructor" ["constructor"].
Proof.
  destruct predict_answers_a_label as [Hmapping Hlabels].
  split.
  - apply (Hmapping offline trained_on_constructor two_by_two).
    vm_compute. reflexivity.
  - apply (Hlabels offline delta_decoder [two_by_two] ["constructor"]
                   [[decimal 45 8]] [[decimal 225 8]] two_by_two);
      vm_compute; reflexivity.
Defined.

(** X14. When the phonetic network answers a distribution without keys,
    [predict] throws the exception of [reduce] on an empty array, whatever
    the semantic network answers. *)
Theorem predict_empty_phonetic_distribution :
  forall (C : Collaborators) (this : AgnosticBrainDecoder) (rawData : RawData)
         (phoneticFeatures semanticFeatures : list number)
         (semanticPred : obj number),
    extractPhoneticFeatures this rawData = Ok phoneticFeatures ->
    extractSemanticFeatures this rawData = Ok semanticFeatures ->
    brain_run (phoneticClassifier this) phoneticFeatures = Ok [] ->
    brain_run (semanticClassifier this) semanticFeatures = Ok semanticPred ->
    predict this rawData = Err ReduceOfEmptyArray.
Proof.
  intros C this rawData pf sf s Hp Hs Hrun Hrun'.
  unfold predict. rewrite Hp. simpl. rewrite Hs. simpl.
  rewrite Hrun. simpl. rewrite Hrun'. reflexivity.
Qed.

Lemma predict_empty_phonetic_distribution_witness :
  predict delta_decoder two_by_two = Err ReduceOfEmptyArray.
Proof.
  apply (predict_empty_phonetic_distribution offline delta_decoder two_by_two
           [decimal 45 8] [decimal 225 8] []);
    vm_compute; reflexivity.
Defined.

(** X15. When the band table has at least one band, a sample with an empty
    channel makes [predict] and [processAndPredict] throw the exception of
    [mathjs.mean], before any network is run or any request sent. *)
Theorem predict_empty_channel :
  forall (C : Collaborators) (this : AgnosticBrainDecoder) (rawData : RawData),
    frequencyBands this <> [] -> In [] rawData ->
    predict this rawData = Err MeanOfEmptyArray /\
    processAndPredict this rawData = Err MeanOfEmptyArray.
Proof.
  intros C this rawData Hbands Hempty.
  assert (Hpredict : predict this rawData = Err MeanOfEmptyArray).
  { pose proof (preprocessData_In_empty this rawData Hbands Hempty) as Hwhole.
    rewrite preprocessData_halves in Hwhole. unfold predict.
    destruct (extractPhoneticFeatures this rawData) as [pf|e] eqn:Hp; simpl.
    - destruct (extractSemanticFeatures this rawData) as [sf|e] eqn:Hs; simpl.
      + discriminate.
      + now rewrite (preprocessData_error _ _ _ Hs).
    - now rewrite (preprocessData_error _ _ _ Hp). }
  split; [exact Hpredict|].
  unfold processAndPredict. now rewrite Hpredict.
Qed.

Lemma predict_empty_channel_witness :
  predict trained_on_constructor [[of_nat 1]; []] = Err MeanOfEmptyArray /\
  processAndPredict trained_on_constructor [[of_nat 1]; []]
  = Err MeanOfEmptyArray.
Proof.
  apply (predict_empty_channel offline trained_on_constructor
           [[of_nat 1]; []]).
  - discriminate.
  - right. now left.
Defined.

(* ================================================================= *)
(** ** Definition lookup, continued *)

Definition placeholder : value := VString "Definition not found".

Section Lookup.

Context `{Collaborators}.

(** The reads of [getNormalizedDefinition] after the request. *)
Definition first_definition (data : value) : result value :=
  entry <- get_index0 data ;;
  meanings <- get_field "meanings" entry ;;
  meaning <- get_index0 meanings ;;
  definitions <- get_field "definitions" meaning ;;
  first <- get_index0 definitions ;;
  get_field "definition" first.

Lemma getNormalizedDefinition_reads (word : string) :
  getNormalizedDefinition word
  = try_catch (data <- axios_get (dictionary_url word) ;; first_definition data)
              (fun _ => Ok placeholder).
Proof. reflexivity. Qed.

(** A member read that answers something else than [undefined] was made on
    an object that holds the member. *)
Lemma get_field_defined (name : string) (v x : value) :
  get_field name v = Ok x -> x <> VUndefined ->
  exists members, v = VObject members /\ get_own name members = Some x.
Proof.
  destruct v; simpl; try discriminate; try (intros [= <-]; congruence).
  destruct (get_own name members) as [y|] eqn:E.
  - intros [= <-] _. eauto.
  - intros [= <-]. congruence.
Qed.

Lemma get_index0_of_undefined : get_index0 VUndefined = Err TypeError.
Proof. reflexivity. Qed.

End Lookup.

(** X16. [getNormalizedDefinition] never throws.  It answers the
    placeholder when the request throws, and whenever it answers anything
    else the response had the whole path: its first entry is an object
    with a [meanings] member, whose first element is an object with a
    [definitions] member, whose first element is neither [undefined] nor
    [null]; the answer is what reading [definition] on that element
    gives. *)
Theorem getNormalizedDefinition_outcomes :
  forall (C : Collaborators) (word : string),
    (exists v, getNormalizedDefinition word = Ok v) /\
    (forall e, axios_get (dictionary_url word) = Err e ->
               getNormalizedDefinition word = Ok placeholder) /\
    (forall v, getNormalizedDefinition word = Ok v -> v <> placeholder ->
       exists data entry meanings meaning definitions first,
         axios_get (dictionary_url word) = Ok data /\
         get_index0 data = Ok (VObject entry) /\
         get_own "meanings" entry = Some meanings /\
         get_index0 meanings = Ok (VObject meaning) /\
         get_own "definitions" meaning = Some definitions /\
         get_index0 definitions = Ok first /\
         first <> VUndefined /\ first <> VNull /\
         get_field "definition" first = Ok v).
Proof.
  intros C word. rewrite getNormalizedDefinition_reads.
  split; [|split].
  - unfold try_catch.
    destruct (data <- axios_get (dictionary_url word) ;; first_definition data);
      eauto.
  - intros e He. now rewrite He.
  - intros v. destruct (axios_get (dictionary_url word)) as [data|e]; simpl;
      [|intros [= <-]; congruence].
    unfold first_definition.
    destruct (get_index0 data) as [entry|e] eqn:Hentry; simpl;
      [|intros [= <-]; congruence].
    destruct (get_field "meanings" entry) as [meanings|e] eqn:Hmeanings; simpl;
      [|intros [= <-]; congruence].
    destruct (get_index0 meanings) as [meaning|e] eqn:Hmeaning; simpl;
      [|intros [= <-]; congruence].
    destruct (get_field "definitions" meaning) as [definitions|e]
      eqn:Hdefinitions; simpl; [|intros [= <-]; congruence].
    destruct (get_index0 definitions) as [first|e] eqn:Hfirst; simpl;
      [|intros [= <-]; congruence].
    destruct (get_field "definition" first) as [d|e] eqn:Hd; simpl;
      [|intros [= <-]; congruence].
    intros [= <-] _.
    destruct (get_field_defined _ _ _ Hmeanings) as (e1 & -> & Hm).
    { intros ->. rewrite get_index0_of_undefined in Hmeaning. discriminate. }
    destruct (get_field_defined _ _ _ Hdefinitions) as (e2 & -> & Hds).
    { intros ->. rewrite get_index0_of_undefined in Hfirst. discriminate. }
    exists data, e1, meanings, e2, definitions, first.
    repeat split; try assumption; intros ->; discriminate.
Qed.

Lemma getNormalizedDefinition_outcomes_witness :
  @getNormalizedDefinition offline "cat" = Ok placeholder.
Proof.
  apply (proj1 (proj2 (getNormalizedDefinition_outcomes offline "cat"))
               (LibraryError "axios")).
  reflexivity.
Defined.

(** X17. When the first entry of the response is an object whose [meanings]
    member is an array that starts with an object, whose [definitions]
    member is an array that starts with an object holding a [definition]
    member, the lookup answers that member, whatever else the response
    holds. *)
Theorem getNormalizedDefinition_first_definition :
  forall (C : Collaborators) (word : string)
         (entry meaning first : list (string * value))
         (entries' meanings' definitions' : list value) (d : value),
    axios_get (dictionary_url word) = Ok (VArray (VObject entry :: entries')) ->
    get_own "meanings" entry = Some (VArray (VObject meaning :: meanings')) ->
    get_own "definitions" meaning
    = Some (VArray (VObject first :: definitions')) ->
    get_own "definition" first = Some d ->
    getNormalizedDefinition word = Ok d.
Proof.
  intros C word entry meaning first es ms ds d Hget Hm Hds Hd.
  rewrite getNormalizedDefinition_reads, Hget. simpl.
  unfold first_definition. simpl. rewrite Hm. simpl. rewrite Hds. simpl.
  now rewrite Hd.
Qed.

(** A response with two entries, the first with a part of speech, two
    meanings and two definitions. *)
Definition served_cat : value :=
  VArray
    [ VObject
        [ ("word", VString "cat");
          ("meanings",
           VArray
             [ VObject
                 [ ("partOfSpeech", VString "noun");
                   ("definitions",
                    VArray
                      [ VObject [ ("definition", VString "A small animal");
                                  ("synonyms", VArray []) ];
                        VObject [ ("definition", VString "A spiteful person") ] ]) ];
               VObject [ ("partOfSpeech", VString "verb") ] ]) ];
      VObject [ ("word", VString "cat") ] ].

Lemma getNormalizedDefinition_first_definition_witness :
  @getNormalizedDefinition (laboratory (Ok served_cat)) "cat"
  = Ok (VString "A small animal").
Proof.
  eapply (getNormalizedDefinition_first_definition
            (laboratory (Ok served_cat)) "cat"); reflexivity.
Defined.

(* ================================================================= *)
(** ** Grounding, continued *)

(** The distribution of similarities over the concept table. *)
Definition similarities (sim : string -> number) : obj number :=
  map (fun concept => (fst concept, sim (fst concept))) universalConcepts.

Section Grounding.

Context `{Collaborators}.

(** For a word with a vector of its own, grounding is [argmax] over the
    similarities of the vector to the concepts. *)
Lemma findUniversalConcept_similarities (this : AgnosticBrainDecoder)
    (word : string) (v : list number) (sim : string -> number) :
  get_own word (wordEmbeddings this) = Some v ->
  (forall name vector, In (name, vector) universalConcepts ->
                       cosineSimilarity (Own v) vector = Ok (sim name)) ->
  findUniversalConcept this word = argmax (similarities sim).
Proof.
  intros Hown Hsim.
  pose proof (Hsim "entity" _ (or_introl eq_refl)) as He.
  pose proof (Hsim "action" _ (or_intror (or_introl eq_refl))) as Ha.
  pose proof (Hsim "state" _ (or_intror (or_intror (or_introl eq_refl))))
    as Hs.
  unfold findUniversalConcept, js_in, get. rewrite Hown.
  unfold reduce, entries, universalConcepts.
  cbn [negb reduce_from snd]. rewrite He, Ha. cbn [bind].
  unfold argmax, similarities, universalConcepts, keys, reduce, get, score.
  cbn [map fst snd reduce_from get_own String.eqb Ascii.eqb Bool.eqb bind].
  destruct (gt (sim "entity") (sim "action")); cbn [snd];
    rewrite ?He, ?Ha, Hs; cbn [bind get_own String.eqb Ascii.eqb Bool.eqb];
    destruct (gt _ (sim "state")); reflexivity.
Qed.

Lemma grounding_callback_selects (wordVector : property (list number))
    (a b c : string * list number) :
  (sa <- cosineSimilarity wordVector (snd a) ;;
   sb <- cosineSimilarity wordVector (snd b) ;;
   Ok (if gt sa sb then a else b)) = Ok c ->
  c = a \/ c = b.
Proof.
  destruct (cosineSimilarity wordVector (snd a)) as [sa|e]; simpl;
    [|discriminate].
  destruct (cosineSimilarity wordVector (snd b)) as [sb|e]; simpl;
    [|discriminate].
  intros [= <-]. destruct (gt sa sb); auto.
Qed.

Lemma zero_over_zero (n : number) :
  div (Fin 0) (mul (Fin 0) n) = NaN.
Proof.
  destruct n as [x|s|]; [|reflexivity|reflexivity].
  unfold mul, div.
  assert (Hz : is_zero (Qred (0 * x)) = true).
  { unfold is_zero. apply Qeq_bool_iff. rewrite Qred_correct. ring. }
  rewrite Hz. reflexivity.
Qed.

End Grounding.

(** X18. For a word that has a vector of its own in the embedding table,
    [findUniversalConcept] is [argmax] over the cosine similarities of the
    vector to the three concepts, in the order entity, action, state: it
    follows the same rule as the choice of the winning class, ties going to
    the later concept. *)
Theorem findUniversalConcept_is_argmax :
  forall (C : Collaborators) (this : AgnosticBrainDecoder) (word : string)
         (v : list number) (sim : string -> number),
    get_own word (wordEmbeddings this) = Some v ->
    (forall name vector, In (name, vector) universalConcepts ->
                         cosineSimilarity (Own v) vector = Ok (sim name)) ->
    findUniversalConcept this word = argmax (similarities sim).
Proof.
  intros C this word v sim. apply findUniversalConcept_similarities.
Qed.

(** A decoder whose embedding table holds one word. *)
Definition with_embedding (C : Collaborators) (word : string)
    (v : list number) : @AgnosticBrainDecoder C :=
  {| frequencyBands := delta_only;
     samplingRate := of_nat 1000;
     phoneticClassifier := brain_new;
     semanticClassifier := brain_new;
     wordMapping := [];
     wordEmbeddings := [(word, v)] |}.

Lemma findUniversalConcept_is_argmax_witness :
  findUniversalConcept
    (with_embedding offline "cat" [of_nat 1; of_nat 0; of_nat 0]) "cat"
  = argmax (similarities (fun _ => of_nat 1)).
Proof.
  apply (findUniversalConcept_is_argmax offline
           (with_embedding offline "cat" [of_nat 1; of_nat 0; of_nat 0])
           "cat" [of_nat 1; of_nat 0; of_nat 0] (fun _ => of_nat 1)).
  - reflexivity.
  - intros name vector _. reflexivity.
Defined.

(** X19. What grounding can answer.  A word that is not [in] the embedding
    table gets ["Word not in vocabulary"]; for a word that is, the answer,
    if any, is one of [entity], [action], [state], never the sentinel. *)
Theorem findUniversalConcept_answers :
  forall (C : Collaborators) (this : AgnosticBrainDecoder) (word : string),
    (js_in word (wordEmbeddings this) = false ->
     findUniversalConcept this word = Ok "Word not in vocabulary") /\
    (js_in word (wordEmbeddings this) = true ->
     forall concept, findUniversalConcept this word = Ok concept ->
                     In concept ["entity"; "action"; "state"]).
Proof.
  intros C this word. unfold findUniversalConcept. split; intros ->.
  - reflexivity.
  - cbn [negb]. intros concept.
    destruct (reduce _ (entries universalConcepts)) as [closest|e] eqn:E;
      simpl; [|discriminate].
    intros [= <-]. unfold reduce, entries, universalConcepts in E.
    apply reduce_from_selects in E.
    + destruct E as [<- | [<- | [<- | []]]]; simpl; auto.
    + intros a b c. apply grounding_callback_selects.
Qed.

Lemma findUniversalConcept_answers_witness :
  In "state" ["entity"; "action"; "state"].
Proof.
  apply (proj2 (findUniversalConcept_answers offline
                  (with_embedding offline "cat" [of_nat 1]) "cat")).
  - reflexivity.
  - vm_compute. reflexivity.
Defined.

(** X20. A vector of zeros is not rejected.  When [mathjs.dot] of the
    word's vector with each concept is 0 and its [mathjs.norm] is 0, every
    cosine similarity is the quotient [0 / 0], that is [NaN]; no comparison
    holds and the answer is the last concept, [state]. *)
Theorem findUniversalConcept_zero_vector :
  forall (C : Collaborators) (this : AgnosticBrainDecoder) (word : string)
         (v : list number),
    get_own word (wordEmbeddings this) = Some v ->
    (forall name vector, In (name, vector) universalConcepts ->
                         mathjs_dot v vector = Ok (Fin 0)) ->
    mathjs_norm v = Ok (Fin 0) ->
    (forall name vector, In (name, vector) universalConcepts ->
                         exists n, mathjs_norm vector = Ok n) ->
    findUniversalConcept this word = Ok "state".
Proof.
  intros C this word v Hown Hdot Hnorm Hnorms.
  rewrite (findUniversalConcept_similarities this word v (fun _ => NaN));
    [reflexivity | exact Hown |].
  intros name vector Hin. unfold cosineSimilarity.
  rewrite (Hdot name vector Hin), Hnorm.
  destruct (Hnorms name vector Hin) as [n ->]. cbn [bind].
  now rewrite zero_over_zero.
Qed.

(** Collaborators whose [dot] is the sum of the products and whose [norm]
    is 0 on a vector of zeros and 1 elsewhere. *)
Fixpoint dot_product (a b : list number) : number :=
  match a, b with
  | x :: a', y :: b' => add (mul x y) (dot_product a' b')
  | _, _ => Fin 0
  end.

Definition all_zero (v : list number) : bool :=
  forallb (fun x => match x with Fin x => is_zero x | _ => false end) v.

Definition with_dot_product : Collaborators :=
  {| network := obj number;
     brain_new := [];
     brain_run := fun net _ => Ok net;
     brain_train := fun _ data => (fromEntries (flat_map snd data), Ok tt);
     mathjs_dot := fun a b => Ok (dot_product a b);
     mathjs_norm := fun v => Ok (if all_zero v then Fin 0 else of_nat 1);
     axios_get := fun _ => Err (LibraryError "axios");
     inherited_to_string := fun name => name |}.

Lemma findUniversalConcept_zero_vector_witness :
  findUniversalConcept
    (with_embedding with_dot_product "cat" [Fin 0; Fin 0; Fin 0]) "cat"
  = Ok "state".
Proof.
  apply (findUniversalConcept_zero_vector with_dot_product
           (with_embedding with_dot_product "cat" [Fin 0; Fin 0; Fin 0])
           "cat" [Fin 0; Fin 0; Fin 0]).
  - reflexivity.
  - intros name vector [Heq | [Heq | [Heq | []]]]; injection Heq as _ <-;
      vm_compute; reflexivity.
  - reflexivity.
  - intros name vector _. eexists. reflexivity.
Defined.

(* ================================================================= *)
(** ** The whole pipeline *)

(** The decoders a program can hold: a freshly constructed one, and what
    [train] leaves behind, whether it succeeded or threw. *)
Inductive reachable `{Collaborators} (bands : FrequencyBands)
    (rate : number) : AgnosticBrainDecoder -> Prop :=
| reachable_constructor :
    reachable bands rate (constructor bands rate)
| reachable_train (this : AgnosticBrainDecoder)
    (rawDataSamples : list RawData) (y : list string) :
    reachable bands rate this ->
    reachable bands rate (fst (train this rawDataSamples y)).

Section Pipeline.

Context `{Collaborators}.

Lemma reachable_fields (bands : FrequencyBands) (rate : number)
    (this : AgnosticBrainDecoder) :
  reachable bands rate this ->
  frequencyBands this = bands /\ samplingRate this = rate /\
  wordEmbeddings this = [].
Proof.
  induction 1 as [|this samples y Hreach (Hb & Hr & He)].
  - repeat split.
  - destruct (train_frequencyBands this samples y) as [Hb' Hr'].
    rewrite Hb', Hr', train_wordEmbeddings. auto.
Qed.

(** With an empty embedding table grounding answers the sentinel or
    throws. *)
Lemma findUniversalConcept_empty_table (this : AgnosticBrainDecoder)
    (word : string) :
  wordEmbeddings this = [] ->
  findUniversalConcept this word
  = if on_prototype word then Err TypeError else Ok "Word not in vocabulary".
Proof.
  intros Hempty. unfold findUniversalConcept, js_in, get. rewrite Hempty.
  simpl. destruct (on_prototype word); reflexivity.
Qed.

End Pipeline.

(** X21. [processAndPredict] succeeds exactly when [predict] and
    [findUniversalConcept] do, and then carries their answers together
    with the answer of the lookup; when it throws, the exception is that of
    [predict] or that of [findUniversalConcept], never one of the lookup. *)
Theorem processAndPredict_outcomes :
  forall (C : Collaborators) (this : AgnosticBrainDecoder) (rawData : RawData),
    (forall r,
        processAndPredict this rawData = Ok r <->
        predict this rawData = Ok (predictedWord r) /\
        getNormalizedDefinition (to_string (predictedWord r))
        = Ok (definition r) /\
        findUniversalConcept this (to_string (predictedWord r))
        = Ok (universalConcept r)) /\
    (forall e,
        processAndPredict this rawData = Err e <->
        predict this rawData = Err e \/
        exists word, predict this rawData = Ok word /\
                     findUniversalConcept this (to_string word) = Err e).
Proof.
  intros C this rawData. unfold processAndPredict.
  destruct (predict this rawData) as [word|e0]; simpl.
  - destruct (getNormalizedDefinition_total (to_string word)) as [def Hdef].
    rewrite Hdef. simpl.
    destruct (findUniversalConcept this (to_string word)) as [concept|e1]
      eqn:Hconcept; simpl; split.
    + intros [w d c]. simpl. split.
      * intros [= <- <- <-]. now rewrite Hdef, Hconcept.
      * intros ([= ->] & Hd & Hc). congruence.
    + intros e. split; [discriminate|].
      intros [Hp | (w & [= <-] & Hc)]; congruence.
    + intros [w d c]. simpl. split; [discriminate|].
      intros ([= ->] & _ & Hc). congruence.
    + intros e. split.
      * intros [= <-]. right. eauto.
      * intros [Hp | (w & [= <-] & Hc)]; congruence.
  - split.
    + intros r. split; [discriminate | intros (Hp & _); discriminate].
    + intros e. split.
      * intros [= <-]. now left.
      * intros [[= <-] | (w & Hp & _)]; [reflexivity | discriminate].
Qed.

Lemma processAndPredict_outcomes_witness :
  processAndPredict trained_on_cat two_by_two
  = Ok {| predictedWord := Own "cat";
          definition := VUndefined;
          universalConcept := "Word not in vocabulary" |}.
Proof.
  apply (proj1 (processAndPredict_outcomes served_without_definition
                  trained_on_cat two_by_two)).
  repeat split; vm_compute; reflexivity.
Defined.

(** X22. No call fills the embedding table.  A decoder obtained from the
    constructor by any number of calls to [train], successful or not, has
    the band table and sampling rate it was constructed with and an empty
    embedding table; grounding a word that does not name a member of
    [Object.prototype] answers ["Word not in vocabulary"]; and every result
    that [processAndPredict] answers carries that string as its concept. *)
Theorem reachable_decoder_grounds_nothing :
  forall (C : Collaborators) (bands : FrequencyBands) (rate : number)
         (this : AgnosticBrainDecoder),
    reachable bands rate this ->
    frequencyBands this = bands /\
    samplingRate this = rate /\
    wordEmbeddings this = [] /\
    (forall word, on_prototype word = false ->
       findUniversalConcept this word = Ok "Word not in vocabulary") /\
    (forall rawData r, processAndPredict this rawData = Ok r ->
       universalConcept r = "Word not in vocabulary").
Proof.
  intros C bands rate this Hreach.
  destruct (reachable_fields bands rate this Hreach) as (Hb & Hr & He).
  repeat split; try assumption.
  - intros word Hword.
    now rewrite (findUniversalConcept_empty_table this word He), Hword.
  - intros rawData r. unfold processAndPredict.
    destruct (predict this rawData) as [word|e]; simpl; [|discriminate].
    destruct (getNormalizedDefinition (to_string word)) as [def|e]; simpl;
      [|discriminate].
    rewrite (findUniversalConcept_empty_table this (to_string word) He).
    destruct (on_prototype (to_string word)); simpl; [discriminate|].
    now intros [= <-].
Qed.

Lemma reachable_decoder_grounds_nothing_witness :
  frequencyBands trained_on_ab = delta_only /\
  samplingRate trained_on_ab = of_nat 1000 /\
  wordEmbeddings trained_on_ab = [] /\
  (forall word, on_prototype word = false ->
     findUniversalConcept trained_on_ab word = Ok "Word not in vocabulary") /\
  (forall rawData r, processAndPredict trained_on_ab rawData = Ok r ->
     universalConcept r = "Word not in vocabulary").
Proof.
  apply (reachable_decoder_grounds_nothing offline delta_only (of_nat 1000)
           trained_on_ab).
  apply reachable_train. apply reachable_constructor.
Defined.

(* ================================================================= *)
(** ** Training and prediction together *)

(** X23. A failure of the first network is not rolled back.  When the
    features of every sample were extracted and training the phonetic
    network throws, [train] throws the same exception, the new mapping is
    already in place, the phonetic network is the one the failed training
    left, and the semantic network has not been trained. *)
Theorem train_network_failure_keeps_new_mapping :
  forall (C : Collaborators) (this : AgnosticBrainDecoder)
         (rawDataSamples : list RawData) (y : list string)
         (phoneticData semanticData : list (list number))
         (phonetic : network) (e : error),
    map_m (extractPhoneticFeatures this) rawDataSamples = Ok phoneticData ->
    map_m (extractSemanticFeatures this) rawDataSamples = Ok semanticData ->
    brain_train (phoneticClassifier this)
      (training_set phoneticData
         (map (fun word => get word (build_wordMapping y)) y))
    = (phonetic, Err e) ->
    snd (train this rawDataSamples y) = Err e /\
    wordMapping (fst (train this rawDataSamples y)) = build_wordMapping y /\
    phoneticClassifier (fst (train this rawDataSamples y)) = phonetic /\
    semanticClassifier (fst (train this rawDataSamples y))
    = semanticClassifier this.
Proof.
  intros C this samples y pd sd phonetic e Hp Hs Htrain.
  unfold train. rewrite Hp, Hs, Htrain. repeat split.
Qed.

(** Collaborators whose networks refuse to be trained. *)
Definition training_refused : Collaborators :=
  {| network := obj number;
     brain_new := [];
     brain_run := fun net _ => Ok net;
     brain_train := fun net _ => (net, Err (LibraryError "brain.js"));
     mathjs_dot := fun _ _ => Ok (of_nat 1);
     mathjs_norm := fun _ => Ok (of_nat 1);
     axios_get := fun _ => Err (LibraryError "axios");
     inherited_to_string := fun name => name |}.

Lemma train_network_failure_keeps_new_mapping_witness :
  let this := @constructor training_refused delta_only (of_nat 1000) in
  snd (train this [two_by_two] ["a"]) = Err (LibraryError "brain.js") /\
  wordMapping (fst (train this [two_by_two] ["a"])) = build_wordMapping ["a"] /\
  phoneticClassifier (fst (train this [two_by_two] ["a"])) = [] /\
  semanticClassifier (fst (train this [two_by_two] ["a"]))
  = semanticClassifier this.
Proof.
  apply (train_network_failure_keeps_new_mapping training_refused
           (@constructor training_refused delta_only (of_nat 1000))
           [two_by_two] ["a"] [[decimal 45 8]] [[decimal 225 8]]
           [] (LibraryError "brain.js"));
    vm_compute; reflexivity.
Defined.

(** X24. Prediction decodes the winning index.  On a decoder that holds the
    mapping built from the labels [y], when the fused distribution is won
    by the key that spells the index [i], [predict] answers the [i]-th
    distinct label of [y], counted from 0 in order of first occurrence. *)
Theorem predict_decodes_winning_index :
  forall (C : Collaborators) (this : AgnosticBrainDecoder) (y : list string)
         (rawData : RawData) (phoneticFeatures semanticFeatures : list number)
         (phoneticPred semanticPred : obj number) (i : nat) (word : string),
    wordMapping this = build_wordMapping y ->
    extractPhoneticFeatures this rawData = Ok phoneticFeatures ->
    extractSemanticFeatures this rawData = Ok semanticFeatures ->
    brain_run (phoneticClassifier this) phoneticFeatures = Ok phoneticPred ->
    brain_run (semanticClassifier this) semanticFeatures = Ok semanticPred ->
    argmax (combine phoneticPred semanticPred) = Ok (string_of_index i) ->
    nth_error (uniqueWords y) i = Some word ->
    predict this rawData = Ok (Own word).
Proof.
  intros C this y rawData pf sf p s i word Hm Hp Hs Hrp Hrs Hwin Hnth.
  unfold predict. rewrite Hp. simpl. rewrite Hs. simpl.
  rewrite Hrp. simpl. rewrite Hrs. simpl. rewrite Hwin. simpl.
  rewrite Hm, inverseMapping_swap. f_equal.
  apply (decode_entry (build_wordMapping y) (entries (build_wordMapping y))).
  - rewrite build_wordMapping_values. apply seq_NoDup.
  - apply Permutation_refl.
  - rewrite build_wordMapping_entries. unfold mapi.
    apply (nth_error_In _ i). now rewrite nth_error_mapi_from, Hnth.
Qed.

Lemma predict_decodes_winning_index_witness :
  predict trained_on_ab two_by_two = Ok (Own "b").
Proof.
  apply (predict_decodes_winning_index offline trained_on_ab ["a"; "b"]
           two_by_two [decimal 45 8] [decimal 225 8]
           [("0", of_nat 1); ("1", of_nat 1)]
           [("0", of_nat 1); ("1", of_nat 1)] 1 "b");
    vm_compute; reflexivity.
Defined.

(** X25. Labels keep their index when more labels follow.  The index a
    label receives from a sequence of labels is the index it receives from
    any longer sequence that starts with it; and a label seen for the first
    time at the end receives the next free index. *)
Theorem wordMapping_stable_under_extension :
  forall (y more : list string) (word : string),
    (forall i, get word (build_wordMapping y) = Own i ->
               get word (build_wordMapping (y ++ more)) = Own i) /\
    (~ In word y ->
     build_wordMapping (y ++ [word])
     = build_wordMapping y ++ [(word, List.length (uniqueWords y))]).
Proof.
  intros y more word. split.
  - intros i Hi. unfold get in *.
    destruct (get_own word (build_wordMapping y)) as [j|] eqn:Hj;
      [|destruct (on_prototype word); discriminate].
    injection Hi as ->.
    assert (Hgrow : exists extra,
               uniqueWords (y ++ more) = uniqueWords y ++ extra).
    { unfold uniqueWords, spread_set. rewrite fold_left_app.
      apply set_grows. }
    destruct Hgrow as [extra Hgrow].
    rewrite (build_wordMapping_entries (y ++ more)), Hgrow.
    unfold mapi. rewrite mapi_from_app, get_own_app.
    rewrite build_wordMapping_entries in Hj. unfold mapi in Hj.
    now rewrite Hj.
  - intros Hnew.
    assert (Hone : uniqueWords (y ++ [word]) = uniqueWords y ++ [word]).
    { unfold uniqueWords, spread_set. rewrite fold_left_app. simpl.
      destruct (set_add_spec (fold_left set_add y []) word)
        as [[Hin _] | [_ ->]]; [|reflexivity].
      exfalso. apply Hnew. apply set_In in Hin as [[] | Hin]. exact Hin. }
    rewrite !build_wordMapping_entries, Hone. unfold mapi.
    now rewrite mapi_from_app.
Qed.

Lemma wordMapping_stable_under_extension_witness :
  get "b" (build_wordMapping (["a"; "b"] ++ ["c"; "a"])) = Own 1 /\
  build_wordMapping (["a"; "b"] ++ ["c"])
  = build_wordMapping ["a"; "b"] ++ [("c", List.length (uniqueWords ["a"; "b"]))].
Proof.
  split.
  - apply (proj1 (wordMapping_stable_under_extension
                    ["a"; "b"] ["c"; "a"] "b")).
    reflexivity.
  - apply (proj2 (wordMapping_stable_under_extension ["a"; "b"] [] "c")).
    simpl. intuition discriminate.
Defined.
